(** * useSpeechRecognition: a shallow embedding of the speech-recognition hook

    The repository holds two revisions of one React hook:
    - [src/hooks/useSpeechRecognition.ts], the voice-mode revision, which
      restarts the recognizer after an utterance or an error (module [Hook]);
    - a plain revision without the restart logic (module [Part000]).

    The hook is callback wiring around the browser's SpeechRecognition
    object.  The embedding keeps the hook's React state and refs in one
    record, together with what the hook can observe of the platform: the
    recognizer objects it allocated, the timers it scheduled, and the log of
    the method calls it made on recognizers and on the caller's callback.
    Each function of the source is a state transformer of the same name. *)

From Stdlib Require Import NArith String Ascii.
From stdpp Require Import base tactics decidable option list numbers.

Local Open Scope N_scope.
Local Open Scope nat_scope.

(** ** JavaScript strings

    A JavaScript string is a finite sequence of UTF-16 code units; [+] is
    concatenation and a string is truthy exactly when it is not empty. *)

Abbreviation jsstring := (list N).

Definition lit (s : string) : jsstring :=
  N_of_ascii <$> list_ascii_of_string s.

Definition truthy (s : jsstring) : bool :=
  match s with
  | [] => false
  | _ :: _ => true
  end.

(** ECMAScript WhiteSpace and LineTerminator code points: the characters
    that [String.prototype.trim] removes at both ends. *)
Definition isWhiteSpace (c : N) : bool :=
  existsb (N.eqb c)
    [0x9; 0xA; 0xB; 0xC; 0xD; 0x20; 0xA0; 0x1680; 0x2028; 0x2029;
     0x202F; 0x205F; 0x3000; 0xFEFF]%N
  || ((0x2000 <=? c)%N && (c <=? 0x200A)%N).

Fixpoint trimStart (s : jsstring) : jsstring :=
  match s with
  | [] => []
  | c :: s' => if isWhiteSpace c then trimStart s' else s
  end.

Definition trimEnd (s : jsstring) : jsstring := rev (trimStart (rev s)).

Definition trim (s : jsstring) : jsstring := trimEnd (trimStart s).

(** ** Result events

    A [SpeechRecognitionResult] is read through [isFinal] and through the
    transcript of its first alternative, [result[0].transcript]; the
    platform always supplies at least one alternative. *)

Module Result.
Record t := { isFinal : bool; transcript : jsstring }.
End Result.

Record SpeechRecognitionEvent := {
  results : list Result.t;
  resultIndex : nat
}.

(** The [for] loop of [onresult], run over the results from [resultIndex]
    on; it threads the two locals and [finalTranscriptRef.current]. *)
Fixpoint resultLoop (rs : list Result.t)
    (interimTranscript finalTranscript finalTranscriptRef : jsstring)
    : jsstring * jsstring * jsstring :=
  match rs with
  | [] => (interimTranscript, finalTranscript, finalTranscriptRef)
  | result :: rs' =>
      let transcript := Result.transcript result in
      if Result.isFinal result
      then resultLoop rs' interimTranscript
             (finalTranscript ++ transcript) (finalTranscriptRef ++ transcript)
      else resultLoop rs' (interimTranscript ++ transcript)
             finalTranscript finalTranscriptRef
  end.

(** What the loop computes, as plain list functions: the final and the
    interim texts of a list of results, each in result order. *)
Definition finalText (rs : list Result.t) : jsstring :=
  concat (Result.transcript <$> filter (λ r, Result.isFinal r = true) rs).

Definition interimText (rs : list Result.t) : jsstring :=
  concat (Result.transcript <$> filter (λ r, Result.isFinal r = false) rs).

(** The results an event hands to the loop. *)
Definition fresh (event : SpeechRecognitionEvent) : list Result.t :=
  drop (resultIndex event) (results event).

(** ** The platform side, shared by both revisions *)

Abbreviation RecId := nat.
Abbreviation Callback := nat.

(** Life cycle of a recognizer object, as the Web Speech API fixes it:
    [start()] moves a fresh object to [Starting]; the [start] event makes it
    [Running]; an [error] event makes it [Failed]; the [end] event closes
    the session. *)
Inductive Phase := Idle | Starting | Running | Failed | Ended.

#[global] Instance Phase_eq_dec : EqDecision Phase.
Proof. solve_decision. Defined.

(** Event payloads delivered by the platform. *)
Inductive Event :=
| EvStart
| EvResult (event : SpeechRecognitionEvent)
| EvEnd
| EvError (error : jsstring).

(** Method calls the hook makes on its collaborators, oldest first. *)
Inductive Call :=
| CallStart (r : RecId)
| CallStop (r : RecId)
| CallAbort (r : RecId)
| CallOnSpeechEnd (cb : Callback) (text : jsstring).

(** The log has a [stop()] call strictly before position [i]. *)
Definition stopBefore (l : list Call) (i : nat) : Prop :=
  ∃ j r, j < i ∧ l !! j = Some (CallStop r).

(** Every call of the caller's callback in the log carries a non-empty
    text and comes after a [stop()] call. *)
Definition callbacksOk (l : list Call) : Prop :=
  ∀ i cb text, l !! i = Some (CallOnSpeechEnd cb text) →
    text ≠ [] ∧ stopBefore l i.

(** A recognizer object: its settings, its four handler slots and its life
    cycle.  A handler slot holds [None] for [null] or one of the hook's
    closures; [OnResult] is the only one that captures the recognizer it was
    created for (it calls [recognition.stop()]). *)
Inductive Closure :=
| OnStart
| OnResult (recognition : RecId)
| OnEnd
| OnError.

Module Rec.
Record t := {
  continuous : bool;
  interimResults : bool;
  lang : jsstring;
  onstart : option Closure;
  onresult : option Closure;
  onend : option Closure;
  onerror : option Closure;
  phase : Phase
}.
End Rec.

Abbreviation Recognizer := Rec.t.

(** [new SpeechRecognition()]. *)
Definition newRecognizer : Recognizer :=
  {| Rec.continuous := false; Rec.interimResults := false; Rec.lang := [];
     Rec.onstart := None; Rec.onresult := None; Rec.onend := None;
     Rec.onerror := None; Rec.phase := Idle |}.

Definition withPhase (p : Phase) (o : Recognizer) : Recognizer :=
  {| Rec.continuous := Rec.continuous o;
     Rec.interimResults := Rec.interimResults o; Rec.lang := Rec.lang o;
     Rec.onstart := Rec.onstart o; Rec.onresult := Rec.onresult o;
     Rec.onend := Rec.onend o; Rec.onerror := Rec.onerror o;
     Rec.phase := p |}.

(** The settings and the four handler assignments of [startListening]. *)
Definition configure (recognition : RecId) (o : Recognizer) : Recognizer :=
  {| Rec.continuous := true; Rec.interimResults := true;
     Rec.lang := lit "tr-TR";
     Rec.onstart := Some OnStart; Rec.onresult := Some (OnResult recognition);
     Rec.onend := Some OnEnd; Rec.onerror := Some OnError;
     Rec.phase := Rec.phase o |}.

(** A recognizer has the hook's four handlers in its slots. *)
Definition wired (r : RecId) (o : Recognizer) : Prop :=
  Rec.onstart o = Some OnStart ∧ Rec.onresult o = Some (OnResult r)
  ∧ Rec.onend o = Some OnEnd ∧ Rec.onerror o = Some OnError.

(** The slot the platform calls for an event. *)
Definition slot (ev : Event) (o : Recognizer) : option Closure :=
  match ev with
  | EvStart => Rec.onstart o
  | EvResult _ => Rec.onresult o
  | EvEnd => Rec.onend o
  | EvError _ => Rec.onerror o
  end.

(** Which life-cycle moves the platform makes on an event. *)
Definition nextPhase (ev : Event) (p : Phase) : option Phase :=
  match ev, p with
  | EvStart, Starting => Some Running
  | EvResult _, Running => Some Running
  | EvError _, (Starting | Running | Failed) => Some Failed
  | EvEnd, (Starting | Running | Failed) => Some Ended
  | _, _ => None
  end.

(** ** The voice-mode revision: [src/hooks/useSpeechRecognition.ts] *)

Module Hook.

(** Timers pending after a [setTimeout]; the delay is kept as written. *)
Inductive TimerBody :=
| SpeechEndTimer (fullText : jsstring)   (* scheduled by onresult *)
| RetryTimer                             (* scheduled by onerror *)
| RestartTimer (onSpeechEnd : Callback). (* scheduled by restartListening *)

Record Timer := { body : TimerBody; delay : nat }.

(** React state, refs, and the platform as the hook sees it. *)
Record State := {
  (* useState *)
  isListening : bool;
  transcript : jsstring;
  isSupported : bool;
  (* useRef *)
  recognitionRef : option RecId;
  onSpeechEndRef : option Callback;
  finalTranscriptRef : jsstring;
  isVoiceModeRef : bool;
  shouldRestartRef : bool;
  (* platform *)
  mounted : bool;                 (* the initialization effect has run *)
  speechRecognitionCtor : bool;   (* window.SpeechRecognition || window.webkitSpeechRecognition *)
  heap : list Recognizer;         (* recognizer objects, by allocation order *)
  timers : list Timer;
  calls : list Call
}.

Definition setIsListening (v : bool) (s : State) : State :=
  {| isListening := v; transcript := transcript s; isSupported := isSupported s;
     recognitionRef := recognitionRef s; onSpeechEndRef := onSpeechEndRef s;
     finalTranscriptRef := finalTranscriptRef s; isVoiceModeRef := isVoiceModeRef s;
     shouldRestartRef := shouldRestartRef s; mounted := mounted s;
     speechRecognitionCtor := speechRecognitionCtor s; heap := heap s;
     timers := timers s; calls := calls s |}.

Definition setTranscript (v : jsstring) (s : State) : State :=
  {| isListening := isListening s; transcript := v; isSupported := isSupported s;
     recognitionRef := recognitionRef s; onSpeechEndRef := onSpeechEndRef s;
     finalTranscriptRef := finalTranscriptRef s; isVoiceModeRef := isVoiceModeRef s;
     shouldRestartRef := shouldRestartRef s; mounted := mounted s;
     speechRecognitionCtor := speechRecognitionCtor s; heap := heap s;
     timers := timers s; calls := calls s |}.

Definition setIsSupported (v : bool) (s : State) : State :=
  {| isListening := isListening s; transcript := transcript s; isSupported := v;
     recognitionRef := recognitionRef s; onSpeechEndRef := onSpeechEndRef s;
     finalTranscriptRef := finalTranscriptRef s; isVoiceModeRef := isVoiceModeRef s;
     shouldRestartRef := shouldRestartRef s; mounted := mounted s;
     speechRecognitionCtor := speechRecognitionCtor s; heap := heap s;
     timers := timers s; calls := calls s |}.

Definition setRecognitionRef (v : option RecId) (s : State) : State :=
  {| isListening := isListening s; transcript := transcript s; isSupported := isSupported s;
     recognitionRef := v; onSpeechEndRef := onSpeechEndRef s;
     finalTranscriptRef := finalTranscriptRef s; isVoiceModeRef := isVoiceModeRef s;
     shouldRestartRef := shouldRestartRef s; mounted := mounted s;
     speechRecognitionCtor := speechRecognitionCtor s; heap := heap s;
     timers := timers s; calls := calls s |}.

Definition setOnSpeechEndRef (v : option Callback) (s : State) : State :=
  {| isListening := isListening s; transcript := transcript s; isSupported := isSupported s;
     recognitionRef := recognitionRef s; onSpeechEndRef := v;
     finalTranscriptRef := finalTranscriptRef s; isVoiceModeRef := isVoiceModeRef s;
     shouldRestartRef := shouldRestartRef s; mounted := mounted s;
     speechRecognitionCtor := speechRecognitionCtor s; heap := heap s;
     timers := timers s; calls := calls s |}.

Definition setFinalTranscriptRef (v : jsstring) (s : State) : State :=
  {| isListening := isListening s; transcript := transcript s; isSupported := isSupported s;
     recognitionRef := recognitionRef s; onSpeechEndRef := onSpeechEndRef s;
     finalTranscriptRef := v; isVoiceModeRef := isVoiceModeRef s;
     shouldRestartRef := shouldRestartRef s; mounted := mounted s;
     speechRecognitionCtor := speechRecognitionCtor s; heap := heap s;
     timers := timers s; calls := calls s |}.

Definition setIsVoiceModeRef (v : bool) (s : State) : State :=
  {| isListening := isListening s; transcript := transcript s; isSupported := isSupported s;
     recognitionRef := recognitionRef s; onSpeechEndRef := onSpeechEndRef s;
     finalTranscriptRef := finalTranscriptRef s; isVoiceModeRef := v;
     shouldRestartRef := shouldRestartRef s; mounted := mounted s;
     speechRecognitionCtor := speechRecognitionCtor s; heap := heap s;
     timers := timers s; calls := calls s |}.

Definition setShouldRestartRef (v : bool) (s : State) : State :=
  {| isListening := isListening s; transcript := transcript s; isSupported := isSupported s;
     recognitionRef := recognitionRef s; onSpeechEndRef := onSpeechEndRef s;
     finalTranscriptRef := finalTranscriptRef s; isVoiceModeRef := isVoiceModeRef s;
     shouldRestartRef := v; mounted := mounted s;
     speechRecognitionCtor := speechRecognitionCtor s; heap := heap s;
     timers := timers s; calls := calls s |}.

Definition setMounted (v : bool) (s : State) : State :=
  {| isListening := isListening s; transcript := transcript s; isSupported := isSupported s;
     recognitionRef := recognitionRef s; onSpeechEndRef := onSpeechEndRef s;
     finalTranscriptRef := finalTranscriptRef s; isVoiceModeRef := isVoiceModeRef s;
     shouldRestartRef := shouldRestartRef s; mounted := v;
     speechRecognitionCtor := speechRecognitionCtor s; heap := heap s;
     timers := timers s; calls := calls s |}.

Definition setHeap (v : list Recognizer) (s : State) : State :=
  {| isListening := isListening s; transcript := transcript s; isSupported := isSupported s;
     recognitionRef := recognitionRef s; onSpeechEndRef := onSpeechEndRef s;
     finalTranscriptRef := finalTranscriptRef s; isVoiceModeRef := isVoiceModeRef s;
     shouldRestartRef := shouldRestartRef s; mounted := mounted s;
     speechRecognitionCtor := speechRecognitionCtor s; heap := v;
     timers := timers s; calls := calls s |}.

Definition setTimers (v : list Timer) (s : State) : State :=
  {| isListening := isListening s; transcript := transcript s; isSupported := isSupported s;
     recognitionRef := recognitionRef s; onSpeechEndRef := onSpeechEndRef s;
     finalTranscriptRef := finalTranscriptRef s; isVoiceModeRef := isVoiceModeRef s;
     shouldRestartRef := shouldRestartRef s; mounted := mounted s;
     speechRecognitionCtor := speechRecognitionCtor s; heap := heap s;
     timers := v; calls := calls s |}.

Definition setCalls (v : list Call) (s : State) : State :=
  {| isListening := isListening s; transcript := transcript s; isSupported := isSupported s;
     recognitionRef := recognitionRef s; onSpeechEndRef := onSpeechEndRef s;
     finalTranscriptRef := finalTranscriptRef s; isVoiceModeRef := isVoiceModeRef s;
     shouldRestartRef := shouldRestartRef s; mounted := mounted s;
     speechRecognitionCtor := speechRecognitionCtor s; heap := heap s;
     timers := timers s; calls := v |}.

(** Platform primitives. *)
Definition call (c : Call) (s : State) : State := setCalls (calls s ++ [c]) s.

Definition setTimeout (b : TimerBody) (ms : nat) (s : State) : State :=
  setTimers (timers s ++ [{| body := b; delay := ms |}]) s.

Definition setPhase (r : RecId) (p : Phase) (s : State) : State :=
  setHeap (alter (withPhase p) r (heap s)) s.

(** [recognition.start()]: the call is made; unless the platform throws,
    the recognizer begins to start. *)
Definition start (r : RecId) (throws : bool) (s : State) : State :=
  let s := call (CallStart r) s in
  if throws then s else setPhase r Starting s.

(** The state of the first render, on a platform with or without the
    constructor. *)
Definition init (ctor : bool) : State :=
  {| isListening := false; transcript := []; isSupported := false;
     recognitionRef := None; onSpeechEndRef := None; finalTranscriptRef := [];
     isVoiceModeRef := false; shouldRestartRef := false; mounted := false;
     speechRecognitionCtor := ctor; heap := []; timers := []; calls := [] |}.

(** [useEffect(() => { ... }, [])]. *)
Definition effect (s : State) : State :=
  if speechRecognitionCtor s then setIsSupported true s else s.

(** The four handlers. *)
Definition onstart (s : State) : State :=
  let s := setIsListening true s in
  setTranscript [] s.

Definition onresult (recognition : RecId) (event : SpeechRecognitionEvent)
    (s : State) : State :=
  let '(interimTranscript, finalTranscript, ref) :=
    resultLoop (fresh event) [] [] (finalTranscriptRef s) in
  let s := setFinalTranscriptRef ref s in
  let currentTranscript := finalTranscriptRef s ++ interimTranscript in
  let s := setTranscript currentTranscript s in
  if truthy finalTranscript && bool_decide (is_Some (onSpeechEndRef s)) then
    let fullText := trim (finalTranscriptRef s) in
    if truthy fullText then
      let s := call (CallStop recognition) s in
      setTimeout (SpeechEndTimer fullText) 100 s
    else s
  else s.

Definition onend (s : State) : State :=
  let s := setIsListening false s in
  let s :=
    if negb (isVoiceModeRef s) && truthy (finalTranscriptRef s)
    then setTranscript (finalTranscriptRef s) s
    else s in
  setRecognitionRef None s.

Definition onerror (error : jsstring) (s : State) : State :=
  let s := setIsListening false s in
  let s := setRecognitionRef None s in
  if isVoiceModeRef s && shouldRestartRef s
     && negb (bool_decide (error = lit "aborted"))
  then setTimeout RetryTimer 1000 s
  else s.

(** [startListening(onSpeechEnd?)].  [throws] is the platform's answer to
    [recognition.start()].  The function is re-created whenever
    [isSupported] changes, and the flag never goes back to false, so the
    copy captured by [onerror] reads the same flag as the current one. *)
Definition startListening (onSpeechEnd : option Callback) (throws : bool)
    (s : State) : State :=
  if negb (isSupported s) then s else
  if negb (speechRecognitionCtor s) then s else
  let s :=
    match recognitionRef s with
    | Some current => call (CallAbort current) s
    | None => s
    end in
  let s := setIsVoiceModeRef (bool_decide (is_Some onSpeechEnd)) s in
  let s := setShouldRestartRef (bool_decide (is_Some onSpeechEnd)) s in
  let recognition := length (heap s) in
  let s := setHeap (heap s ++ [newRecognizer]) s in
  let s := setRecognitionRef (Some recognition) s in
  let s := setOnSpeechEndRef onSpeechEnd s in
  let s := setFinalTranscriptRef [] s in
  let s := setHeap (alter (configure recognition) recognition (heap s)) s in
  let s := start recognition throws s in
  if throws then
    let s := setIsListening false s in
    setRecognitionRef None s
  else s.

(** [stopListening], as the latest render returns it: [useCallback]
    re-creates it whenever [isListening] changes, and this definition reads
    the current flag.  A copy captured by an earlier render reads the flag
    of that render; [HookClosure.stopListening] takes the captured flag as
    an argument. *)
Definition stopListening (s : State) : State :=
  let s := setShouldRestartRef false s in
  let s := setIsVoiceModeRef false s in
  match recognitionRef s with
  | Some current => if isListening s then call (CallStop current) s else s
  | None => s
  end.

Definition resetTranscript (s : State) : State :=
  let s := setTranscript [] s in
  setFinalTranscriptRef [] s.

Definition restartListening (onSpeechEnd : Callback) (s : State) : State :=
  if negb (shouldRestartRef s) then s else
  setTimeout (RestartTimer onSpeechEnd) 500 s.

(** The body of a timer, run when it expires. *)
Definition fire (b : TimerBody) (throws : bool) (s : State) : State :=
  match b with
  | SpeechEndTimer fullText =>
      match onSpeechEndRef s with
      | Some cb => call (CallOnSpeechEnd cb fullText) s
      | None => s
      end
  | RetryTimer =>
      if shouldRestartRef s && bool_decide (is_Some (onSpeechEndRef s))
      then startListening (onSpeechEndRef s) throws s
      else s
  | RestartTimer onSpeechEnd =>
      if shouldRestartRef s
      then startListening (Some onSpeechEnd) throws s
      else s
  end.

(** Calling a closure stored in a handler slot.  The platform passes each
    slot the event of its kind; [onstart] and [onend] ignore theirs. *)
Definition invoke (c : Closure) (ev : Event) (s : State) : State :=
  match c, ev with
  | OnStart, _ => onstart s
  | OnResult recognition, EvResult event => onresult recognition event s
  | OnEnd, _ => onend s
  | OnError, EvError error => onerror error s
  | _, _ => s
  end.

(** The platform delivers [ev] to recognizer [r]: the life cycle moves
    and the handler in the slot, if any, runs. *)
Definition deliver (r : RecId) (ev : Event) (s : State) : option State :=
  o ← heap s !! r;
  p ← nextPhase ev (Rec.phase o);
  let s := setPhase r p s in
  Some (match slot ev o with
        | Some c => invoke c ev s
        | None => s
        end).

(** Everything that can happen to a mounted hook: the UI calls one of the
    returned functions, the platform delivers an event, a timer expires. *)
Inductive Action :=
| Mount
| StartListening (onSpeechEnd : option Callback) (throws : bool)
| StopListening
| ResetTranscript
| RestartListening (onSpeechEnd : Callback)
| Deliver (r : RecId) (ev : Event)
| Fire (i : nat) (throws : bool).

Definition step (a : Action) (s : State) : option State :=
  match a with
  | Mount => if mounted s then None else Some (effect (setMounted true s))
  | StartListening onSpeechEnd throws => Some (startListening onSpeechEnd throws s)
  | StopListening => Some (stopListening s)
  | ResetTranscript => Some (resetTranscript s)
  | RestartListening onSpeechEnd => Some (restartListening onSpeechEnd s)
  | Deliver r ev => deliver r ev s
  | Fire i throws =>
      t ← timers s !! i;
      Some (fire (body t) throws (setTimers (delete i (timers s)) s))
  end.

Fixpoint run (acts : list Action) (s : State) : option State :=
  match acts with
  | [] => Some s
  | a :: acts' => s' ← step a s; run acts' s'
  end.

Inductive reachable : State → Prop :=
| reachable_init ctor : reachable (init ctor)
| reachable_step a s s' : reachable s → step a s = Some s' → reachable s'.

(** The handler the hook registered on recognizer [r] for an event. *)
Definition handle (r : RecId) (ev : Event) (s : State) : State :=
  match ev with
  | EvStart => onstart s
  | EvResult event => onresult r event s
  | EvEnd => onend s
  | EvError error => onerror error s
  end.

(** The state [startListening] leaves when both guards pass, written as
    one record (shown equal to the code in [startListening_unfold]). *)
Definition started (onSpeechEnd : option Callback) (throws : bool)
    (s : State) : State :=
  let r := length (heap s) in
  {| isListening := if throws then false else isListening s;
     transcript := transcript s;
     isSupported := isSupported s;
     recognitionRef := if throws then None else Some r;
     onSpeechEndRef := onSpeechEnd;
     finalTranscriptRef := [];
     isVoiceModeRef := bool_decide (is_Some onSpeechEnd);
     shouldRestartRef := bool_decide (is_Some onSpeechEnd);
     mounted := mounted s;
     speechRecognitionCtor := speechRecognitionCtor s;
     heap := heap s ++ [withPhase (if throws then Idle else Starting)
                          (configure r newRecognizer)];
     timers := timers s;
     calls := (calls s ++ match recognitionRef s with
                          | Some current => [CallAbort current]
                          | None => []
                          end) ++ [CallStart r] |}.

(** Every recognizer on the heap carries the hook's four handlers. *)
Definition wiredHeap (s : State) : Prop :=
  ∀ r o, heap s !! r = Some o → wired r o.

(** Every pending callback timer carries a non-empty text and was
    scheduled after a [stop()] call. *)
Definition timersOk (s : State) : Prop :=
  ∀ t text, t ∈ timers s → body t = SpeechEndTimer text →
    text ≠ [] ∧ stopBefore (calls s) (length (calls s)).


End Hook.

(** ** The plain revision (no voice-mode restart) *)

Module Part000.

Record State := {
  (* useState *)
  isListening : bool;
  transcript : jsstring;
  isSupported : bool;
  (* useRef *)
  recognitionRef : option RecId;
  onSpeechEndRef : option Callback;
  finalTranscriptRef : jsstring;
  (* platform *)
  mounted : bool;
  speechRecognitionCtor : bool;
  heap : list Recognizer;
  calls : list Call
}.

Definition setIsListening (v : bool) (s : State) : State :=
  {| isListening := v; transcript := transcript s; isSupported := isSupported s;
     recognitionRef := recognitionRef s; onSpeechEndRef := onSpeechEndRef s;
     finalTranscriptRef := finalTranscriptRef s; mounted := mounted s;
     speechRecognitionCtor := speechRecognitionCtor s; heap := heap s;
     calls := calls s |}.

Definition setTranscript (v : jsstring) (s : State) : State :=
  {| isListening := isListening s; transcript := v; isSupported := isSupported s;
     recognitionRef := recognitionRef s; onSpeechEndRef := onSpeechEndRef s;
     finalTranscriptRef := finalTranscriptRef s; mounted := mounted s;
     speechRecognitionCtor := speechRecognitionCtor s; heap := heap s;
     calls := calls s |}.

Definition setIsSupported (v : bool) (s : State) : State :=
  {| isListening := isListening s; transcript := transcript s; isSupported := v;
     recognitionRef := recognitionRef s; onSpeechEndRef := onSpeechEndRef s;
     finalTranscriptRef := finalTranscriptRef s; mounted := mounted s;
     speechRecognitionCtor := speechRecognitionCtor s; heap := heap s;
     calls := calls s |}.

Definition setRecognitionRef (v : option RecId) (s : State) : State :=
  {| isListening := isListening s; transcript := transcript s; isSupported := isSupported s;
     recognitionRef := v; onSpeechEndRef := onSpeechEndRef s;
     finalTranscriptRef := finalTranscriptRef s; mounted := mounted s;
     speechRecognitionCtor := speechRecognitionCtor s; heap := heap s;
     calls := calls s |}.

Definition setOnSpeechEndRef (v : option Callback) (s : State) : State :=
  {| isListening := isListening s; transcript := transcript s; isSupported := isSupported s;
     recognitionRef := recognitionRef s; onSpeechEndRef := v;
     finalTranscriptRef := finalTranscriptRef s; mounted := mounted s;
     speechRecognitionCtor := speechRecognitionCtor s; heap := heap s;
     calls := calls s |}.

Definition setFinalTranscriptRef (v : jsstring) (s : State) : State :=
  {| isListening := isListening s; transcript := transcript s; isSupported := isSupported s;
     recognitionRef := recognitionRef s; onSpeechEndRef := onSpeechEndRef s;
     finalTranscriptRef := v; mounted := mounted s;
     speechRecognitionCtor := speechRecognitionCtor s; heap := heap s;
     calls := calls s |}.

Definition setMounted (v : bool) (s : State) : State :=
  {| isListening := isListening s; transcript := transcript s; isSupported := isSupported s;
     recognitionRef := recognitionRef s; onSpeechEndRef := onSpeechEndRef s;
     finalTranscriptRef := finalTranscriptRef s; mounted := v;
     speechRecognitionCtor := speechRecognitionCtor s; heap := heap s;
     calls := calls s |}.

Definition setHeap (v : list Recognizer) (s : State) : State :=
  {| isListening := isListening s; transcript := transcript s; isSupported := isSupported s;
     recognitionRef := recognitionRef s; onSpeechEndRef := onSpeechEndRef s;
     finalTranscriptRef := finalTranscriptRef s; mounted := mounted s;
     speechRecognitionCtor := speechRecognitionCtor s; heap := v;
     calls := calls s |}.

Definition setCalls (v : list Call) (s : State) : State :=
  {| isListening := isListening s; transcript := transcript s; isSupported := isSupported s;
     recognitionRef := recognitionRef s; onSpeechEndRef := onSpeechEndRef s;
     finalTranscriptRef := finalTranscriptRef s; mounted := mounted s;
     speechRecognitionCtor := speechRecognitionCtor s; heap := heap s;
     calls := v |}.

Definition call (c : Call) (s : State) : State := setCalls (calls s ++ [c]) s.

Definition setPhase (r : RecId) (p : Phase) (s : State) : State :=
  setHeap (alter (withPhase p) r (heap s)) s.

Definition start (r : RecId) (throws : bool) (s : State) : State :=
  let s := call (CallStart r) s in
  if throws then s else setPhase r Starting s.

Definition init (ctor : bool) : State :=
  {| isListening := false; transcript := []; isSupported := false;
     recognitionRef := None; onSpeechEndRef := None; finalTranscriptRef := [];
     mounted := false; speechRecognitionCtor := ctor; heap := []; calls := [] |}.

Definition effect (s : State) : State :=
  if speechRecognitionCtor s then setIsSupported true s else s.

Definition onstart (s : State) : State :=
  let s := setIsListening true s in
  setTranscript [] s.

(** Here the callback is called from the handler itself, right after
    [recognition.stop()]. *)
Definition onresult (recognition : RecId) (event : SpeechRecognitionEvent)
    (s : State) : State :=
  let '(interimTranscript, finalTranscript, ref) :=
    resultLoop (fresh event) [] [] (finalTranscriptRef s) in
  let s := setFinalTranscriptRef ref s in
  let currentTranscript := finalTranscriptRef s ++ interimTranscript in
  let s := setTranscript currentTranscript s in
  match truthy finalTranscript, onSpeechEndRef s with
  | true, Some cb =>
      let fullText := trim (finalTranscriptRef s) in
      if truthy fullText then
        let s := call (CallStop recognition) s in
        call (CallOnSpeechEnd cb fullText) s
      else s
  | _, _ => s
  end.

Definition onend (s : State) : State :=
  let s := setIsListening false s in
  if negb (bool_decide (is_Some (onSpeechEndRef s)))
     && truthy (finalTranscriptRef s)
  then setTranscript (finalTranscriptRef s) s
  else s.

Definition onerror (error : jsstring) (s : State) : State :=
  setIsListening false s.

(** [startListening], as the latest render returns it: the guard reads
    the current [isSupported] and [isListening].  A copy captured by an
    earlier render tests the flags of that render;
    [Part000Closure.startListening] takes the captured flags as arguments. *)
Definition startListening (onSpeechEnd : option Callback) (throws : bool)
    (s : State) : State :=
  if negb (isSupported s) || isListening s then s else
  if negb (speechRecognitionCtor s) then s else
  let recognition := length (heap s) in
  let s := setHeap (heap s ++ [newRecognizer]) s in
  let s := setRecognitionRef (Some recognition) s in
  let s := setOnSpeechEndRef onSpeechEnd s in
  let s := setFinalTranscriptRef [] s in
  let s := setHeap (alter (configure recognition) recognition (heap s)) s in
  let s := start recognition throws s in
  if throws then setIsListening false s else s.

(** [stopListening], as the latest render returns it (see
    [Part000Closure.stopListening] for a captured flag). *)
Definition stopListening (s : State) : State :=
  match recognitionRef s with
  | Some current => if isListening s then call (CallStop current) s else s
  | None => s
  end.

Definition resetTranscript (s : State) : State :=
  let s := setTranscript [] s in
  setFinalTranscriptRef [] s.

Definition invoke (c : Closure) (ev : Event) (s : State) : State :=
  match c, ev with
  | OnStart, _ => onstart s
  | OnResult recognition, EvResult event => onresult recognition event s
  | OnEnd, _ => onend s
  | OnError, EvError error => onerror error s
  | _, _ => s
  end.

Definition deliver (r : RecId) (ev : Event) (s : State) : option State :=
  o ← heap s !! r;
  p ← nextPhase ev (Rec.phase o);
  let s := setPhase r p s in
  Some (match slot ev o with
        | Some c => invoke c ev s
        | None => s
        end).

Inductive Action :=
| Mount
| StartListening (onSpeechEnd : option Callback) (throws : bool)
| StopListening
| ResetTranscript
| Deliver (r : RecId) (ev : Event).

Definition step (a : Action) (s : State) : option State :=
  match a with
  | Mount => if mounted s then None else Some (effect (setMounted true s))
  | StartListening onSpeechEnd throws => Some (startListening onSpeechEnd throws s)
  | StopListening => Some (stopListening s)
  | ResetTranscript => Some (resetTranscript s)
  | Deliver r ev => deliver r ev s
  end.

Fixpoint run (acts : list Action) (s : State) : option State :=
  match acts with
  | [] => Some s
  | a :: acts' => s' ← step a s; run acts' s'
  end.

Inductive reachable : State → Prop :=
| reachable_init ctor : reachable (init ctor)
| reachable_step a s s' : reachable s → step a s = Some s' → reachable s'.

Definition handle (r : RecId) (ev : Event) (s : State) : State :=
  match ev with
  | EvStart => onstart s
  | EvResult event => onresult r event s
  | EvEnd => onend s
  | EvError error => onerror error s
  end.

(** The state [startListening] leaves when its guards pass. *)
Definition started (onSpeechEnd : option Callback) (throws : bool)
    (s : State) : State :=
  let r := length (heap s) in
  {| isListening := if throws then false else isListening s;
     transcript := transcript s;
     isSupported := isSupported s;
     recognitionRef := Some r;
     onSpeechEndRef := onSpeechEnd;
     finalTranscriptRef := [];
     mounted := mounted s;
     speechRecognitionCtor := speechRecognitionCtor s;
     heap := heap s ++ [withPhase (if throws then Idle else Starting)
                          (configure r newRecognizer)];
     calls := calls s ++ [CallStart r] |}.

Definition wiredHeap (s : State) : Prop :=
  ∀ r o, heap s !! r = Some o → wired r o.

End Part000.

(** ** Sample inputs for the examples *)

Definition helloFinal : Result.t :=
  {| Result.isFinal := true; Result.transcript := lit "merhaba " |}.

Definition worldInterim : Result.t :=
  {| Result.isFinal := false; Result.transcript := lit "dun" |}.

Definition worldFinal : Result.t :=
  {| Result.isFinal := true; Result.transcript := lit "dunya " |}.

Definition firstEvent : SpeechRecognitionEvent :=
  {| results := [helloFinal; worldInterim]; resultIndex := 0 |}.

Definition secondEvent : SpeechRecognitionEvent :=
  {| results := [helloFinal; worldFinal]; resultIndex := 1 |}.

Definition interimEvent : SpeechRecognitionEvent :=
  {| results := [helloFinal; worldInterim]; resultIndex := 1 |}.

(** The hook after its first render and effect, on a platform with the
    constructor. *)
Definition mountedHook : Hook.State :=
  Hook.effect (Hook.setMounted true (Hook.init true)).

Definition mountedPart : Part000.State :=
  Part000.effect (Part000.setMounted true (Part000.init true)).

(** ** Vocabulary for the further properties *)

(** The recognizers on which the log records a [start()] call, in order. *)
Definition startedIds (l : list Call) : list RecId :=
  omap (λ c, match c with CallStart r => Some r | _ => None end) l.

(** The settings [startListening] gives a recognizer. *)
Definition configured (o : Recognizer) : Prop :=
  Rec.continuous o = true ∧ Rec.interimResults o = true
  ∧ Rec.lang o = lit "tr-TR".

(** The delay each kind of timer is scheduled with, in milliseconds. *)
Definition delayOf (b : Hook.TimerBody) : nat :=
  match b with
  | Hook.SpeechEndTimer _ => 100
  | Hook.RetryTimer => 1000
  | Hook.RestartTimer _ => 500
  end.

(** The UI calls [startListening]. *)
Definition userStart (a : Hook.Action) : bool :=
  match a with
  | Hook.StartListening _ _ => true
  | _ => false
  end.

(** The UI calls [startListening] with a callback. *)
Definition voiceStart (a : Hook.Action) : bool :=
  match a with
  | Hook.StartListening (Some _) _ => true
  | _ => false
  end.

(** A whole manual session on recognizer [r]: the UI starts it, the
    platform delivers the start event, the result events and the end. *)
Definition manualSession (r : RecId) (evs : list SpeechRecognitionEvent)
    : list Hook.Action :=
  [Hook.StartListening None false; Hook.Deliver r EvStart]
  ++ ((λ e, Hook.Deliver r (EvResult e)) <$> evs)
  ++ [Hook.Deliver r EvEnd].

Definition manualSessionPart (r : RecId) (evs : list SpeechRecognitionEvent)
    : list Part000.Action :=
  [Part000.StartListening None false; Part000.Deliver r EvStart]
  ++ ((λ e, Part000.Deliver r (EvResult e)) <$> evs)
  ++ [Part000.Deliver r EvEnd].

(** The finalized text of a list of events, in order. *)
Definition sessionFinalText (evs : list SpeechRecognitionEvent) : jsstring :=
  concat ((finalText ∘ fresh) <$> evs).


(** ** The functions as a closure holds them

    [useCallback] returns a function that reads the [isSupported] and
    [isListening] of the render that created it.  The functions of [Hook]
    and [Part000] are those of the latest render; the definitions below take
    the captured values as arguments, for a call made before the re-render
    or through a reference kept from an earlier one. *)

Module HookClosure.
Import Hook.

Definition startListening (isSupported : bool)
    (onSpeechEnd : option Callback) (throws : bool) (s : State) : State :=
  if negb isSupported then s else
  if negb (speechRecognitionCtor s) then s else
  let s :=
    match recognitionRef s with
    | Some current => call (CallAbort current) s
    | None => s
    end in
  let s := setIsVoiceModeRef (bool_decide (is_Some onSpeechEnd)) s in
  let s := setShouldRestartRef (bool_decide (is_Some onSpeechEnd)) s in
  let recognition := length (heap s) in
  let s := setHeap (heap s ++ [newRecognizer]) s in
  let s := setRecognitionRef (Some recognition) s in
  let s := setOnSpeechEndRef onSpeechEnd s in
  let s := setFinalTranscriptRef [] s in
  let s := setHeap (alter (configure recognition) recognition (heap s)) s in
  let s := start recognition throws s in
  if throws then
    let s := setIsListening false s in
    setRecognitionRef None s
  else s.

Definition stopListening (isListening : bool) (s : State) : State :=
  let s := setShouldRestartRef false s in
  let s := setIsVoiceModeRef false s in
  match recognitionRef s with
  | Some current => if isListening then call (CallStop current) s else s
  | None => s
  end.

End HookClosure.

Module Part000Closure.
Import Part000.

Definition startListening (isSupported isListening : bool)
    (onSpeechEnd : option Callback) (throws : bool) (s : State) : State :=
  if negb isSupported || isListening then s else
  if negb (speechRecognitionCtor s) then s else
  let recognition := length (heap s) in
  let s := setHeap (heap s ++ [newRecognizer]) s in
  let s := setRecognitionRef (Some recognition) s in
  let s := setOnSpeechEndRef onSpeechEnd s in
  let s := setFinalTranscriptRef [] s in
  let s := setHeap (alter (configure recognition) recognition (heap s)) s in
  let s := start recognition throws s in
  if throws then setIsListening false s else s.

Definition stopListening (isListening : bool) (s : State) : State :=
  match recognitionRef s with
  | Some current => if isListening then call (CallStop current) s else s
  | None => s
  end.

End Part000Closure.

(** * Proofs *)

Lemma resultLoop_spec rs interim final ref :
  resultLoop rs interim final ref
  = (interim ++ interimText rs, final ++ finalText rs, ref ++ finalText rs).
Proof.
  revert interim final ref.
  induction rs as [|r rs IH]; intros interim final ref; simpl.
  - unfold interimText, finalText; simpl. by rewrite !app_nil_r.
  - rewrite IH. unfold interimText, finalText.
    destruct r as [[] t]; simpl;
      rewrite ?filter_cons_True, ?filter_cons_False by (simpl; congruence);
      simpl; by rewrite ?app_assoc.
Qed.

Lemma truthy_true (s : jsstring) : truthy s = true ↔ s ≠ [].
Proof. destruct s; simpl; split; congruence. Qed.

Lemma alter_snoc {A} (f : A → A) (l : list A) (x : A) :
  alter f (length l) (l ++ [x]) = l ++ [f x].
Proof.
  rewrite alter_app_r_alt by lia. by rewrite Nat.sub_diag.
Qed.

Lemma wired_withPhase r p o : wired r o → wired r (withPhase p o).
Proof. by intros (?&?&?&?). Qed.

Lemma wired_configure r o : wired r (configure r o).
Proof. by repeat split. Qed.

(** The call log only grows at its end. *)
Lemma stopBefore_app l l' i : stopBefore l i → stopBefore (l ++ l') i.
Proof.
  intros (j & r & Hj & Hl). exists j, r. split; [done|].
  by apply lookup_app_l_Some.
Qed.

Lemma stopBefore_mono l i j : i ≤ j → stopBefore l i → stopBefore l j.
Proof. intros Hij (k & r & Hk & Hl). exists k, r. split; [lia|done]. Qed.

Lemma stopBefore_snoc_stop l r :
  stopBefore (l ++ [CallStop r]) (S (length l)).
Proof.
  exists (length l), r. split; [lia|].
  rewrite lookup_app_r by lia. by rewrite Nat.sub_diag.
Qed.

Lemma lookup_snoc_Some {A} (l : list A) (x y : A) i :
  (l ++ [x]) !! i = Some y →
  (i < length l ∧ l !! i = Some y) ∨ (i = length l ∧ y = x).
Proof.
  intros H. apply lookup_app_Some in H as [H|[Hge H]].
  - left. split; [by eapply lookup_lt_Some|done].
  - right. apply list_lookup_singleton_Some in H as [? ->]. split; [lia|done].
Qed.

Lemma callbacksOk_snoc_other l c :
  callbacksOk l → (∀ cb text, c ≠ CallOnSpeechEnd cb text) →
  callbacksOk (l ++ [c]).
Proof.
  intros Hok Hc i cb text Hi.
  apply lookup_snoc_Some in Hi as [[_ Hi]|[_ Hi]].
  - destruct (Hok i cb text Hi) as [? ?]. split; [done|].
    by apply stopBefore_app.
  - by destruct (Hc cb text).
Qed.

Lemma callbacksOk_snoc_cb l cb text :
  callbacksOk l → text ≠ [] → stopBefore l (length l) →
  callbacksOk (l ++ [CallOnSpeechEnd cb text]).
Proof.
  intros Hok Htext Hstop i cb' text' Hi.
  apply lookup_snoc_Some in Hi as [[_ Hi]|[-> Hi]].
  - destruct (Hok i cb' text' Hi) as [? ?]. split; [done|].
    by apply stopBefore_app.
  - injection Hi as -> ->. split; [done|]. by apply stopBefore_app.
Qed.

(** ** The voice-mode revision *)

Module HookFacts.
Import Hook.

(** Call-by-value evaluation of the setters on an explicit record. *)
Ltac eval_setters :=
  cbv beta iota zeta delta
    [startListening started start call setTimeout setPhase
     setIsListening setTranscript setIsSupported setRecognitionRef
     setOnSpeechEndRef setFinalTranscriptRef setIsVoiceModeRef
     setShouldRestartRef setMounted setHeap setTimers setCalls
     isListening transcript isSupported recognitionRef onSpeechEndRef
     finalTranscriptRef isVoiceModeRef shouldRestartRef mounted
     speechRecognitionCtor heap timers calls negb andb].

Lemma startListening_unfold onSpeechEnd throws s :
  startListening onSpeechEnd throws s
  = if isSupported s && speechRecognitionCtor s
    then started onSpeechEnd throws s else s.
Proof.
  destruct s as [l t sup [cur|] cb ft vm sr m ctor h ts cs];
    destruct sup, ctor, throws; eval_setters; try reflexivity;
    rewrite ?length_app, ?alter_snoc; simpl;
    rewrite ?alter_snoc, ?app_nil_r; reflexivity.
Qed.

(** The result handler, with its loop replaced by what the loop computes. *)
Lemma onresult_unfold r event s :
  onresult r event s
  = let ref := finalTranscriptRef s ++ finalText (fresh event) in
    let s1 := setTranscript (ref ++ interimText (fresh event))
                (setFinalTranscriptRef ref s) in
    if truthy (finalText (fresh event))
       && bool_decide (is_Some (onSpeechEndRef s))
       && truthy (trim ref)
    then setTimeout (SpeechEndTimer (trim ref)) 100 (call (CallStop r) s1)
    else s1.
Proof.
  unfold onresult. rewrite resultLoop_spec. simpl.
  destruct (truthy (finalText (fresh event))); simpl; [|done].
  destruct (bool_decide _); simpl; [|done].
  by destruct (truthy (trim _)).
Qed.

Lemma deliver_wired r ev s s' :
  wiredHeap s → deliver r ev s = Some s' →
  ∃ o p, heap s !! r = Some o ∧ nextPhase ev (Rec.phase o) = Some p
         ∧ s' = handle r ev (setPhase r p s).
Proof.
  intros Hw Hd. unfold deliver in Hd.
  destruct (heap s !! r) as [o|] eqn:Ho; simpl in Hd; [|done].
  destruct (nextPhase ev (Rec.phase o)) as [p|] eqn:Hp; simpl in Hd; [|done].
  exists o, p. split_and!; [done..|].
  destruct (Hw r o Ho) as (H1 & H2 & H3 & H4).
  destruct ev; unfold slot in Hd; rewrite ?H1, ?H2, ?H3, ?H4 in Hd;
    by injection Hd as <-.
Qed.

Lemma wiredHeap_setPhase r p s : wiredHeap s → wiredHeap (setPhase r p s).
Proof.
  intros Hw r' o'. simpl. rewrite list_lookup_alter.
  case_decide as Hr; [|apply Hw]. subst r'.
  destruct (heap s !! r) as [o|] eqn:Ho; simpl; [|done].
  intros [= <-]. apply wired_withPhase, (Hw r o Ho).
Qed.

Lemma wiredHeap_started cb throws s : wiredHeap s → wiredHeap (started cb throws s).
Proof.
  intros Hw r o. simpl. intros Hl.
  apply lookup_app_Some in Hl as [Hl|[Hge Hl]]; [by apply Hw|].
  apply list_lookup_singleton_Some in Hl as [Hr <-].
  assert (r = length (heap s)) as -> by lia.
  apply wired_withPhase, wired_configure.
Qed.

Lemma wiredHeap_heap s s' : heap s' = heap s → wiredHeap s → wiredHeap s'.
Proof. unfold wiredHeap. by intros ->. Qed.

Lemma handle_heap r ev s : heap (handle r ev s) = heap s.
Proof.
  destruct ev; simpl; try done.
  - rewrite onresult_unfold. simpl. by case_match.
  - unfold onend. by case_match.
  - unfold onerror. by case_match.
Qed.

Lemma startListening_wiredHeap cb throws s :
  wiredHeap s → wiredHeap (startListening cb throws s).
Proof.
  rewrite startListening_unfold. case_match; [apply wiredHeap_started|done].
Qed.

Lemma fire_wiredHeap b throws s : wiredHeap s → wiredHeap (fire b throws s).
Proof.
  intros Hw. destruct b; simpl; repeat case_match;
    auto using startListening_wiredHeap.
Qed.

Lemma reachable_wiredHeap s : reachable s → wiredHeap s.
Proof.
  induction 1 as [ctor|a s s' _ IH Hstep].
  - intros r o Hl. simpl in Hl. by rewrite lookup_nil in Hl.
  - destruct a; simpl in Hstep.
    + destruct (mounted s); [done|]. injection Hstep as <-.
      unfold effect. by case_match.
    + injection Hstep as <-. by apply startListening_wiredHeap.
    + injection Hstep as <-. unfold stopListening. by repeat case_match.
    + by injection Hstep as <-.
    + injection Hstep as <-. unfold restartListening. by case_match.
    + apply deliver_wired in Hstep as (o & p & _ & _ & ->); [|done].
      eapply wiredHeap_heap; [apply handle_heap|].
      by apply wiredHeap_setPhase.
    + destruct (timers s !! i); simpl in Hstep; [|done].
      injection Hstep as <-. by apply fire_wiredHeap.
Qed.

(** Induction over reachable states, one case per source function. *)
Lemma reachable_inv (P : State → Prop) :
  (∀ ctor, P (init ctor)) →
  (∀ s, P s → mounted s = false → P (effect (setMounted true s))) →
  (∀ cb throws s, P s → isSupported s = true → speechRecognitionCtor s = true →
     P (started cb throws s)) →
  (∀ s, P s → P (stopListening s)) →
  (∀ s, P s → P (resetTranscript s)) →
  (∀ cb s, P s → P (restartListening cb s)) →
  (∀ r ev o p s, wiredHeap s → P s → heap s !! r = Some o →
     nextPhase ev (Rec.phase o) = Some p → P (handle r ev (setPhase r p s))) →
  (∀ i t s, P s → timers s !! i = Some t →
     P (setTimers (delete i (timers s)) s)) →
  (∀ i t text cb s, P s → timers s !! i = Some t →
     body t = SpeechEndTimer text → onSpeechEndRef s = Some cb →
     P (call (CallOnSpeechEnd cb text) (setTimers (delete i (timers s)) s))) →
  ∀ s, reachable s → P s.
Proof.
  intros Hinit Hmount Hstart Hstop Hreset Hrestart Hdeliver Htimer Hcb s Hr.
  assert (Hsl : ∀ cb throws s, P s → P (startListening cb throws s)).
  { intros cb throws s0 HP. rewrite startListening_unfold.
    destruct (isSupported s0) eqn:?, (speechRecognitionCtor s0) eqn:?;
      simpl; auto. }
  induction Hr as [ctor|a s s' Hr IH Hstep]; [done|].
  destruct a; simpl in Hstep.
  - destruct (mounted s) eqn:Hm; [done|]. injection Hstep as <-. auto.
  - injection Hstep as <-. auto.
  - injection Hstep as <-. auto.
  - injection Hstep as <-. auto.
  - injection Hstep as <-. auto.
  - apply deliver_wired in Hstep as (o & p & Ho & Hp & ->);
      [|by apply reachable_wiredHeap].
    eapply Hdeliver; eauto using reachable_wiredHeap.
  - destruct (timers s !! i) as [t|] eqn:Ht; simpl in Hstep; [|done].
    injection Hstep as <-.
    pose proof (Htimer i t s IH Ht) as HP.
    destruct (body t) eqn:Hb; simpl.
    + destruct (onSpeechEndRef s) eqn:Hcbref; simpl; [|done].
      by eapply Hcb.
    + case_match; auto.
    + case_match; auto.
Qed.

Lemma run_reachable acts s s' : reachable s → run acts s = Some s' → reachable s'.
Proof.
  revert s. induction acts as [|a acts IH]; intros s Hr Hrun; simpl in Hrun.
  - by injection Hrun as <-.
  - destruct (step a s) as [s1|] eqn:Hs; simpl in Hrun; [|done].
    eapply IH; [|done]. by eapply reachable_step.
Qed.


(** *** What the handlers leave alone *)

Lemma onerror_unfold error s :
  onerror error s
  = let s1 := setRecognitionRef None (setIsListening false s) in
    if isVoiceModeRef s && shouldRestartRef s
       && negb (bool_decide (error = lit "aborted"))
    then setTimeout RetryTimer 1000 s1 else s1.
Proof. reflexivity. Qed.

Lemma handle_frame r ev s :
  let s' := handle r ev s in
  isSupported s' = isSupported s
  ∧ onSpeechEndRef s' = onSpeechEndRef s
  ∧ isVoiceModeRef s' = isVoiceModeRef s
  ∧ shouldRestartRef s' = shouldRestartRef s
  ∧ mounted s' = mounted s
  ∧ speechRecognitionCtor s' = speechRecognitionCtor s
  ∧ heap s' = heap s.
Proof.
  destruct ev; simpl.
  - done.
  - rewrite onresult_unfold. simpl. by case_match.
  - unfold onend. by case_match.
  - rewrite onerror_unfold. simpl. by case_match.
Qed.

Lemma onstart_isListening s : isListening (onstart s) = true.
Proof. done. Qed.

Lemma onend_isListening s : isListening (onend s) = false.
Proof. unfold onend. by case_match. Qed.

Lemma onerror_isListening error s : isListening (onerror error s) = false.
Proof. rewrite onerror_unfold. simpl. by case_match. Qed.


(** *** The listening flag and the recognizer life cycle *)




(** *** Voice-mode flags imply a stored callback *)

Lemma reachable_voice s :
  reachable s →
  (isVoiceModeRef s = true → is_Some (onSpeechEndRef s))
  ∧ (shouldRestartRef s = true → is_Some (onSpeechEndRef s)).
Proof.
  revert s.
  apply (reachable_inv (λ s,
    (isVoiceModeRef s = true → is_Some (onSpeechEndRef s))
    ∧ (shouldRestartRef s = true → is_Some (onSpeechEndRef s)))).
  - done.
  - intros s IH _. unfold effect. by case_match.
  - intros cb throws s _ _ _. simpl.
    split; intros H; by apply bool_decide_eq_true in H.
  - intros s _. unfold stopListening. by repeat case_match.
  - done.
  - intros cb s IH. unfold restartListening. by case_match.
  - intros r ev o p s _ IH _ _.
    destruct (handle_frame r ev (setPhase r p s))
      as (_ & -> & -> & -> & _).
    done.
  - done.
  - done.
Qed.


(** *** The callback is called with a text, after a stop *)

Lemma timersOk_keep s s' extra :
  (∀ t, t ∈ timers s' →
     t ∈ timers s ∨ ∀ text, body t ≠ SpeechEndTimer text) →
  calls s' = calls s ++ extra →
  timersOk s → timersOk s'.
Proof.
  intros Ht Hc Hok t text Hin Hb.
  destruct (Ht t Hin) as [Hold|Hnew]; [|by destruct (Hnew text)].
  destruct (Hok t text Hold Hb) as [? Hstop]. split; [done|].
  rewrite Hc. apply stopBefore_app.
  eapply stopBefore_mono; [|done]. rewrite length_app. lia.
Qed.

Lemma timersOk_same s s' :
  timers s' = timers s → calls s' = calls s → timersOk s → timersOk s'.
Proof.
  intros Ht Hc. apply (timersOk_keep s s' []).
  - intros t. rewrite Ht. auto.
  - by rewrite app_nil_r.
Qed.

Lemma reachable_callbacks s :
  reachable s → timersOk s ∧ callbacksOk (calls s).
Proof.
  revert s.
  apply (reachable_inv (λ s, timersOk s ∧ callbacksOk (calls s))).
  - intros ctor. split.
    + intros t text Hin. simpl in Hin. by apply elem_of_nil in Hin.
    + intros i cb text Hi. simpl in Hi. by rewrite lookup_nil in Hi.
  - intros s [IHt IHc] _. unfold effect. case_match; simpl.
    + split; [by eapply timersOk_same|done].
    + split; [by eapply timersOk_same|done].
  - intros cb throws s [IHt IHc] _ _. split.
    + eapply timersOk_keep; [| |done]; simpl; [by left|].
      by rewrite <-app_assoc.
    + simpl. apply callbacksOk_snoc_other; [|done].
      destruct (recognitionRef s).
      * by apply callbacksOk_snoc_other.
      * by rewrite app_nil_r.
  - intros s [IHt IHc]. unfold stopListening. repeat case_match; simpl.
    + split; [|by apply callbacksOk_snoc_other].
      eapply timersOk_keep; [| |done]; simpl; [by left|done].
    + split; [by eapply timersOk_same|done].
    + split; [by eapply timersOk_same|done].
  - intros s [IHt IHc]. split; [by eapply timersOk_same|done].
  - intros cb s [IHt IHc]. unfold restartListening. case_match; [done|].
    simpl. split; [|done].
    eapply (timersOk_keep _ _ []); [| |done]; simpl.
    + intros t [Hin|Hin]%elem_of_app; [by left|right].
      apply list_elem_of_singleton in Hin as ->. done.
    + by rewrite app_nil_r.
  - intros r ev o p s _ [IHt IHc] _ _. destruct ev; cbn [handle].
    + split; [by eapply timersOk_same|done].
    + rewrite onresult_unfold. cbv zeta.
      destruct (truthy (finalText (fresh event))
                && bool_decide (is_Some (onSpeechEndRef (setPhase r p s)))
                && truthy (trim (finalTranscriptRef (setPhase r p s)
                                 ++ finalText (fresh event)))) eqn:Hc.
      * apply andb_prop in Hc as [_ Hfull]. apply truthy_true in Hfull.
        simpl. simpl in Hfull. split.
        -- intros t text Hin Hb. simpl in Hin |- *.
           apply elem_of_app in Hin as [Hin|Hin].
           ++ destruct (IHt t text Hin Hb) as [? Hstop]. split; [done|].
              apply stopBefore_app.
              eapply stopBefore_mono; [|done]. rewrite length_app. lia.
           ++ apply list_elem_of_singleton in Hin as ->.
              injection Hb as <-. split; [done|].
              rewrite length_app. simpl.
              eapply stopBefore_mono; [|apply stopBefore_snoc_stop]. lia.
        -- by apply callbacksOk_snoc_other.
      * split; [by eapply timersOk_same|done].
    + unfold onend. case_match; simpl.
      * split; [by eapply timersOk_same|done].
      * split; [by eapply timersOk_same|done].
    + rewrite onerror_unfold. cbv zeta. case_match; simpl.
      * split; [|done].
        eapply (timersOk_keep _ _ []); [| |done]; simpl.
        -- intros t [Hin|Hin]%elem_of_app; [by left|right].
           apply list_elem_of_singleton in Hin as ->. done.
        -- by rewrite app_nil_r.
      * split; [by eapply timersOk_same|done].
  - intros i t s [IHt IHc] _. split; [|done].
    eapply (timersOk_keep _ _ []); [| |done]; simpl.
    + intros t' Hin. left. by eapply list_elem_of_delete_inv.
    + by rewrite app_nil_r.
  - intros i t text cb s [IHt IHc] Hi Hb _.
    destruct (IHt t text) as [Htext Hstop];
      [by eapply list_elem_of_lookup_2|done|].
    split.
    + eapply timersOk_keep; [| |done]; simpl; [|done].
      intros t' Hin. left. by eapply list_elem_of_delete_inv.
    + simpl. by apply callbacksOk_snoc_cb.
Qed.

End HookFacts.

(** ** The plain revision *)

Module Part000Facts.
Import Part000.

Ltac eval_part_setters :=
  cbv beta iota zeta delta
    [startListening started start call setPhase
     setIsListening setTranscript setIsSupported setRecognitionRef
     setOnSpeechEndRef setFinalTranscriptRef setMounted setHeap setCalls
     isListening transcript isSupported recognitionRef onSpeechEndRef
     finalTranscriptRef mounted speechRecognitionCtor heap calls
     negb andb orb].

Lemma part_startListening_unfold onSpeechEnd throws s :
  startListening onSpeechEnd throws s
  = if isSupported s && negb (isListening s) && speechRecognitionCtor s
    then started onSpeechEnd throws s else s.
Proof.
  destruct s as [l t sup cur cb ft m ctor h cs];
    destruct sup, l, ctor, throws; eval_part_setters; try reflexivity;
    rewrite ?length_app, ?alter_snoc; simpl;
    rewrite ?alter_snoc; reflexivity.
Qed.

Lemma part_onresult_unfold r event s :
  onresult r event s
  = let ref := finalTranscriptRef s ++ finalText (fresh event) in
    let s1 := setTranscript (ref ++ interimText (fresh event))
                (setFinalTranscriptRef ref s) in
    match onSpeechEndRef s with
    | Some cb =>
        if truthy (finalText (fresh event)) && truthy (trim ref)
        then call (CallOnSpeechEnd cb (trim ref)) (call (CallStop r) s1)
        else s1
    | None => s1
    end.
Proof.
  unfold onresult. rewrite resultLoop_spec. simpl.
  destruct (truthy (finalText (fresh event))), (onSpeechEndRef s); simpl;
    try done.
Qed.

Lemma part_deliver_wired r ev s s' :
  wiredHeap s → deliver r ev s = Some s' →
  ∃ o p, heap s !! r = Some o ∧ nextPhase ev (Rec.phase o) = Some p
         ∧ s' = handle r ev (setPhase r p s).
Proof.
  intros Hw Hd. unfold deliver in Hd.
  destruct (heap s !! r) as [o|] eqn:Ho; simpl in Hd; [|done].
  destruct (nextPhase ev (Rec.phase o)) as [p|] eqn:Hp; simpl in Hd; [|done].
  exists o, p. split_and!; [done..|].
  destruct (Hw r o Ho) as (H1 & H2 & H3 & H4).
  destruct ev; unfold slot in Hd; rewrite ?H1, ?H2, ?H3, ?H4 in Hd;
    by injection Hd as <-.
Qed.

Lemma part_handle_frame r ev s :
  let s' := handle r ev s in
  isSupported s' = isSupported s
  ∧ onSpeechEndRef s' = onSpeechEndRef s
  ∧ recognitionRef s' = recognitionRef s
  ∧ mounted s' = mounted s
  ∧ speechRecognitionCtor s' = speechRecognitionCtor s
  ∧ heap s' = heap s.
Proof.
  destruct ev; simpl.
  - done.
  - rewrite part_onresult_unfold. simpl. by repeat case_match.
  - unfold onend. by case_match.
  - done.
Qed.

Lemma part_wiredHeap_setPhase r p s : wiredHeap s → wiredHeap (setPhase r p s).
Proof.
  intros Hw r' o'. simpl. rewrite list_lookup_alter.
  case_decide as Hr; [|apply Hw]. subst r'.
  destruct (heap s !! r) as [o|] eqn:Ho; simpl; [|done].
  intros [= <-]. apply wired_withPhase, (Hw r o Ho).
Qed.

Lemma part_wiredHeap_started cb throws s :
  wiredHeap s → wiredHeap (started cb throws s).
Proof.
  intros Hw r o. simpl. intros Hl.
  apply lookup_app_Some in Hl as [Hl|[Hge Hl]]; [by apply Hw|].
  apply list_lookup_singleton_Some in Hl as [Hr <-].
  assert (r = length (heap s)) as -> by lia.
  apply wired_withPhase, wired_configure.
Qed.

Lemma part_reachable_wiredHeap s : reachable s → wiredHeap s.
Proof.
  induction 1 as [ctor|a s s' _ IH Hstep].
  - intros r o Hl. simpl in Hl. by rewrite lookup_nil in Hl.
  - destruct a; simpl in Hstep.
    + destruct (mounted s); [done|]. injection Hstep as <-.
      unfold effect. by case_match.
    + injection Hstep as <-. rewrite part_startListening_unfold.
      case_match; [by apply part_wiredHeap_started|done].
    + injection Hstep as <-. unfold stopListening. by repeat case_match.
    + by injection Hstep as <-.
    + apply part_deliver_wired in Hstep as (o & p & _ & _ & ->); [|done].
      intros r' o'.
      destruct (part_handle_frame r ev (setPhase r p s))
        as (_ & _ & _ & _ & _ & ->).
      by apply part_wiredHeap_setPhase.
Qed.

Lemma part_reachable_inv (P : State → Prop) :
  (∀ ctor, P (init ctor)) →
  (∀ s, P s → mounted s = false → P (effect (setMounted true s))) →
  (∀ cb throws s, P s → isSupported s = true → isListening s = false →
     speechRecognitionCtor s = true → P (started cb throws s)) →
  (∀ s, P s → P (stopListening s)) →
  (∀ s, P s → P (resetTranscript s)) →
  (∀ r ev o p s, wiredHeap s → P s → heap s !! r = Some o →
     nextPhase ev (Rec.phase o) = Some p → P (handle r ev (setPhase r p s))) →
  ∀ s, reachable s → P s.
Proof.
  intros Hinit Hmount Hstart Hstop Hreset Hdeliver s Hr.
  induction Hr as [ctor|a s s' Hr IH Hstep]; [done|].
  destruct a; simpl in Hstep.
  - destruct (mounted s) eqn:Hm; [done|]. injection Hstep as <-. auto.
  - injection Hstep as <-. rewrite part_startListening_unfold.
    destruct (isSupported s) eqn:?, (isListening s) eqn:?,
      (speechRecognitionCtor s) eqn:?; simpl; auto.
  - injection Hstep as <-. auto.
  - injection Hstep as <-. auto.
  - apply part_deliver_wired in Hstep as (o & p & Ho & Hp & ->);
      [|by apply part_reachable_wiredHeap].
    eapply Hdeliver; eauto using part_reachable_wiredHeap.
Qed.

Lemma part_run_reachable acts s s' :
  reachable s → run acts s = Some s' → reachable s'.
Proof.
  revert s. induction acts as [|a acts IH]; intros s Hr Hrun; simpl in Hrun.
  - by injection Hrun as <-.
  - destruct (step a s) as [s1|] eqn:Hs; simpl in Hrun; [|done].
    eapply IH; [|done]. by eapply reachable_step.
Qed.

Lemma part_reachable_callbacks s : reachable s → callbacksOk (calls s).
Proof.
  revert s. apply (part_reachable_inv (λ s, callbacksOk (calls s))).
  - intros ctor i cb text Hi. simpl in Hi. by rewrite lookup_nil in Hi.
  - intros s IH _. unfold effect. by case_match.
  - intros cb throws s IH _ _ _. simpl. by apply callbacksOk_snoc_other.
  - intros s IH. unfold stopListening. repeat case_match; simpl; try done.
    by apply callbacksOk_snoc_other.
  - done.
  - intros r ev o p s _ IH _ _. destruct ev; cbn [handle].
    + done.
    + rewrite part_onresult_unfold. cbv zeta.
      destruct (onSpeechEndRef (setPhase r p s)) as [cb|]; [|done].
      destruct (truthy (finalText (fresh event))
                && truthy (trim (finalTranscriptRef (setPhase r p s)
                                 ++ finalText (fresh event)))) eqn:Hc;
        [|done].
      apply andb_prop in Hc as [_ Hfull]. apply truthy_true in Hfull.
      simpl. simpl in Hfull. apply callbacksOk_snoc_cb.
      * by apply callbacksOk_snoc_other.
      * done.
      * rewrite length_app. simpl.
        eapply stopBefore_mono; [|apply stopBefore_snoc_stop]. lia.
    + unfold onend. by case_match.
    + done.
Qed.

End Part000Facts.

(** * Properties of the specification *)

Lemma foldl_onresult_final_hook r evs s :
  Hook.finalTranscriptRef (foldl (λ s e, Hook.onresult r e s) s evs)
  = Hook.finalTranscriptRef s ++ concat ((finalText ∘ fresh) <$> evs).
Proof.
  revert s. induction evs as [|e evs IH]; intros s; simpl.
  - by rewrite app_nil_r.
  - rewrite IH, HookFacts.onresult_unfold. cbv zeta.
    case_match; simpl; by rewrite app_assoc.
Qed.

Lemma foldl_onresult_final_part r evs s :
  Part000.finalTranscriptRef (foldl (λ s e, Part000.onresult r e s) s evs)
  = Part000.finalTranscriptRef s ++ concat ((finalText ∘ fresh) <$> evs).
Proof.
  revert s. induction evs as [|e evs IH]; intros s; simpl.
  - by rewrite app_nil_r.
  - rewrite IH, Part000Facts.part_onresult_unfold. cbv zeta.
    repeat case_match; simpl; by rewrite app_assoc.
Qed.

Lemma hook_onresult_transcript r event s :
  Hook.finalTranscriptRef (Hook.onresult r event s)
  = Hook.finalTranscriptRef s ++ finalText (fresh event)
  ∧ Hook.transcript (Hook.onresult r event s)
    = Hook.finalTranscriptRef (Hook.onresult r event s)
      ++ interimText (fresh event).
Proof.
  rewrite HookFacts.onresult_unfold. cbv zeta. by case_match.
Qed.

Lemma part_onresult_transcript r event s :
  Part000.finalTranscriptRef (Part000.onresult r event s)
  = Part000.finalTranscriptRef s ++ finalText (fresh event)
  ∧ Part000.transcript (Part000.onresult r event s)
    = Part000.finalTranscriptRef (Part000.onresult r event s)
      ++ interimText (fresh event).
Proof.
  rewrite Part000Facts.part_onresult_unfold. cbv zeta. by repeat case_match.
Qed.

(** C1. Every run of [onresult] sets the transcript to the finalized text
    accumulated so far, this event's finalized results included, followed by
    the non-final text of this event, both in result order; the results of
    the event that count are those from [resultIndex] on.  Within a session
    (after [startListening] and the start event, over any sequence of result
    events) the accumulated text is the concatenation of the finalized text
    of all events so far.  Both revisions. *)
Theorem onresult_sets_transcript
    (onSpeechEnd : option Callback) (throws : bool) (r : RecId)
    (evs : list SpeechRecognitionEvent) (event : SpeechRecognitionEvent)
    (sh : Hook.State) (sp : Part000.State) :
  Hook.isSupported sh = true →
  Hook.speechRecognitionCtor sh = true →
  Part000.isSupported sp = true →
  Part000.isListening sp = false →
  Part000.speechRecognitionCtor sp = true →
  let new := drop (resultIndex event) (results event) in
  let finalized :=
    concat ((λ e, finalText (drop (resultIndex e) (results e))) <$> evs) in
  let h := foldl (λ s e, Hook.onresult r e s)
             (Hook.onstart (Hook.startListening onSpeechEnd throws sh)) evs in
  let p := foldl (λ s e, Part000.onresult r e s)
             (Part000.onstart (Part000.startListening onSpeechEnd throws sp))
             evs in
  (Hook.finalTranscriptRef h = finalized
   ∧ Hook.transcript (Hook.onresult r event h)
     = (finalized ++ finalText new) ++ interimText new)
  ∧ (Part000.finalTranscriptRef p = finalized
     ∧ Part000.transcript (Part000.onresult r event p)
       = (finalized ++ finalText new) ++ interimText new)
  ∧ (∀ s, Hook.transcript (Hook.onresult r event s)
          = (Hook.finalTranscriptRef s ++ finalText new) ++ interimText new
          ∧ Hook.finalTranscriptRef (Hook.onresult r event s)
            = Hook.finalTranscriptRef s ++ finalText new)
  ∧ (∀ s, Part000.transcript (Part000.onresult r event s)
          = (Part000.finalTranscriptRef s ++ finalText new)
            ++ interimText new
          ∧ Part000.finalTranscriptRef (Part000.onresult r event s)
            = Part000.finalTranscriptRef s ++ finalText new).
Proof.
  intros Hsup Hctor Psup Plis Pctor new finalized h p.
  assert (Hgen : ∀ s, Hook.transcript (Hook.onresult r event s)
          = (Hook.finalTranscriptRef s ++ finalText new) ++ interimText new
          ∧ Hook.finalTranscriptRef (Hook.onresult r event s)
            = Hook.finalTranscriptRef s ++ finalText new).
  { intros s. destruct (hook_onresult_transcript r event s) as [H1 H2].
    split; [by rewrite H2, H1|done]. }
  assert (Pgen : ∀ s, Part000.transcript (Part000.onresult r event s)
          = (Part000.finalTranscriptRef s ++ finalText new)
            ++ interimText new
          ∧ Part000.finalTranscriptRef (Part000.onresult r event s)
            = Part000.finalTranscriptRef s ++ finalText new).
  { intros s. destruct (part_onresult_transcript r event s) as [H1 H2].
    split; [by rewrite H2, H1|done]. }
  assert (Hh : Hook.finalTranscriptRef h = finalized).
  { subst h. rewrite foldl_onresult_final_hook.
    by rewrite HookFacts.startListening_unfold, Hsup, Hctor. }
  assert (Hp : Part000.finalTranscriptRef p = finalized).
  { subst p. rewrite foldl_onresult_final_part.
    by rewrite Part000Facts.part_startListening_unfold, Psup, Plis, Pctor. }
  split_and!; try done.
  - destruct (Hgen h) as [-> _]. by rewrite Hh.
  - destruct (Pgen p) as [-> _]. by rewrite Hp.
Qed.

Lemma onresult_sets_transcript_witness :
  (Hook.isSupported mountedHook = true
   ∧ Hook.speechRecognitionCtor mountedHook = true
   ∧ Part000.isSupported mountedPart = true
   ∧ Part000.isListening mountedPart = false
   ∧ Part000.speechRecognitionCtor mountedPart = true)
  ∧ Hook.transcript
      (Hook.onresult 0 interimEvent
         (foldl (λ s e, Hook.onresult 0 e s)
            (Hook.onstart (Hook.startListening None false mountedHook))
            [firstEvent]))
    = lit "merhaba dun"
  ∧ Part000.transcript
      (Part000.onresult 0 interimEvent
         (foldl (λ s e, Part000.onresult 0 e s)
            (Part000.onstart (Part000.startListening None false mountedPart))
            [firstEvent]))
    = lit "merhaba dun"
  ∧ Hook.transcript (Hook.onresult 0 secondEvent (Hook.onstart mountedHook))
    = lit "dunya ".
Proof.
  split; [by vm_compute|].
  pose proof (onresult_sets_transcript None false 0 [firstEvent]
    interimEvent mountedHook mountedPart
    eq_refl eq_refl eq_refl eq_refl eq_refl) as ((_ & H1) & (_ & H2) & _).
  pose proof (onresult_sets_transcript None false 0 []
    secondEvent mountedHook mountedPart
    eq_refl eq_refl eq_refl eq_refl eq_refl) as (_ & _ & H3 & _).
  destruct (H3 (Hook.onstart mountedHook)) as [H3' _].
  cbv zeta in H1, H2, H3'.
  split; [|split].
  - rewrite H1. by vm_compute.
  - rewrite H2. by vm_compute.
  - rewrite H3'. by vm_compute.
Defined.

Example onresult_transcript_run :
  Hook.transcript
    (Hook.onresult 0 interimEvent
       (foldl (λ s e, Hook.onresult 0 e s)
          (Hook.onstart (Hook.startListening None false mountedHook))
          [firstEvent]))
  = lit "merhaba dun".
Proof. by vm_compute. Qed.

Lemma hook_startListening_isListening cb throws s :
  Hook.isListening (Hook.startListening cb throws s)
  = if Hook.isSupported s && Hook.speechRecognitionCtor s && throws
    then false else Hook.isListening s.
Proof.
  rewrite HookFacts.startListening_unfold.
  by destruct (Hook.isSupported s), (Hook.speechRecognitionCtor s), throws.
Qed.









(** C3. After the [onerror] handler runs, and after [recognition.start()]
    throws inside [startListening], the listening flag is false.  Both
    revisions; the hypotheses are the guards a call has to pass to reach
    [recognition.start()]. *)
Theorem failures_leave_not_listening
    (onSpeechEnd : option Callback) (error : jsstring)
    (sh : Hook.State) (sp : Part000.State) :
  Hook.isSupported sh = true →
  Hook.speechRecognitionCtor sh = true →
  Part000.isSupported sp = true →
  Part000.isListening sp = false →
  Part000.speechRecognitionCtor sp = true →
  (∀ s, Hook.isListening (Hook.onerror error s) = false)
  ∧ (Hook.isListening (Hook.startListening onSpeechEnd true sh) = false
     ∧ CallStart (length (Hook.heap sh))
       ∈ Hook.calls (Hook.startListening onSpeechEnd true sh))
  ∧ (∀ s, Part000.isListening (Part000.onerror error s) = false)
  ∧ (Part000.isListening (Part000.startListening onSpeechEnd true sp) = false
     ∧ CallStart (length (Part000.heap sp))
       ∈ Part000.calls (Part000.startListening onSpeechEnd true sp)).
Proof.
  intros Hsup Hctor Psup Plis Pctor. split_and!.
  - intros s. apply HookFacts.onerror_isListening.
  - by rewrite hook_startListening_isListening, Hsup, Hctor.
  - rewrite HookFacts.startListening_unfold, Hsup, Hctor. simpl.
    apply elem_of_app. right. by apply list_elem_of_singleton.
  - done.
  - by rewrite Part000Facts.part_startListening_unfold, Psup, Plis, Pctor.
  - rewrite Part000Facts.part_startListening_unfold, Psup, Plis, Pctor. simpl.
    apply elem_of_app. right. by apply list_elem_of_singleton.
Qed.

Lemma failures_leave_not_listening_witness :
  (Hook.isSupported (Hook.onstart mountedHook) = true
   ∧ Hook.speechRecognitionCtor (Hook.onstart mountedHook) = true
   ∧ Part000.isSupported mountedPart = true
   ∧ Part000.isListening mountedPart = false
   ∧ Part000.speechRecognitionCtor mountedPart = true)
  ∧ Hook.isListening (Hook.onstart mountedHook) = true
  ∧ Hook.isListening
      (Hook.startListening (Some 7) true (Hook.onstart mountedHook)) = false
  ∧ Hook.isListening
      (Hook.onerror (lit "network") (Hook.onstart mountedHook)) = false.
Proof.
  split; [by vm_compute|]. split; [done|].
  pose proof (failures_leave_not_listening (Some 7) (lit "network")
    (Hook.onstart mountedHook) mountedPart
    eq_refl eq_refl eq_refl eq_refl eq_refl) as (H1 & (H2 & _) & _).
  split; [exact H2|apply H1].
Defined.

(** ** Retry after an error (C4) *)

(** The session of the counterexample: a voice-mode session is running, the
    UI starts another one, and the platform reports the abort of the first. *)
Lemma aborted_session_run :
  ∃ s,
    Hook.run [Hook.Mount; Hook.StartListening (Some 7) false;
              Hook.Deliver 0 EvStart; Hook.StartListening (Some 7) false]
      (Hook.init true) = Some s
    ∧ Hook.calls s = [CallStart 0; CallAbort 0; CallStart 1]
    ∧ Hook.isVoiceModeRef s = true
    ∧ Hook.shouldRestartRef s = true
    ∧ Hook.timers (Hook.onerror (lit "aborted") s) = []
    ∧ ∃ s', Hook.deliver 0 (EvError (lit "aborted")) s = Some s'
            ∧ Hook.timers s' = [].
Proof.
  eexists. split; [by vm_compute|]. split_and!; try by vm_compute.
  eexists. split; by vm_compute.
Qed.

(** C4, as stated, fails: in voice mode, with restart enabled, the error
    [aborted] schedules no retry. *)
Lemma aborted_error_schedules_no_retry :
  ¬ (∀ (acts : list Hook.Action) (s : Hook.State) (error : jsstring),
       Hook.run acts (Hook.init true) = Some s →
       Hook.isVoiceModeRef s = true →
       Hook.shouldRestartRef s = true →
       ∃ t, t ∈ Hook.timers (Hook.onerror error s)
            ∧ Hook.body t = Hook.RetryTimer).
Proof.
  intros H.
  destruct aborted_session_run as (s & Hrun & _ & Hvoice & Hrestart & Ht & _).
  destruct (H _ s (lit "aborted") Hrun Hvoice Hrestart) as (t & Hin & _).
  rewrite Ht in Hin. by apply elem_of_nil in Hin.
Qed.

Lemma hook_voice_started cb throws s :
  Hook.isSupported s = true → Hook.speechRecognitionCtor s = true →
  Hook.isVoiceModeRef (Hook.startListening (Some cb) throws s) = true
  ∧ Hook.shouldRestartRef (Hook.startListening (Some cb) throws s) = true
  ∧ Hook.onSpeechEndRef (Hook.startListening (Some cb) throws s) = Some cb.
Proof.
  intros Hsup Hctor. by rewrite HookFacts.startListening_unfold, Hsup, Hctor.
Qed.

(** C4, amended. In voice mode with restart enabled, an error other than
    [aborted] makes [onerror] schedule one retry timer with the fixed delay
    of 1000 ms, and apart from that timer the handler only clears the
    listening flag and the current-recognizer reference.  A session started
    with a callback is in voice mode with restart enabled.  When the timer
    expires and restart is still enabled, it calls [startListening] with the
    stored callback; when restart was disabled meanwhile (as
    [stopListening] does) it does nothing.  With restart disabled
    beforehand, outside voice mode, or for the error [aborted], no retry is
    scheduled. *)
Theorem voice_mode_error_retry (s : Hook.State) (error : jsstring) :
  Hook.isVoiceModeRef s = true →
  Hook.shouldRestartRef s = true →
  error ≠ lit "aborted" →
  Hook.onerror error s
  = Hook.setTimeout Hook.RetryTimer 1000
      (Hook.setRecognitionRef None (Hook.setIsListening false s))
  ∧ Hook.timers (Hook.onerror error s)
    = Hook.timers s ++ [{| Hook.body := Hook.RetryTimer; Hook.delay := 1000 |}]
  ∧ (∀ cb throws s0,
       Hook.isSupported s0 = true → Hook.speechRecognitionCtor s0 = true →
       Hook.isVoiceModeRef (Hook.startListening (Some cb) throws s0) = true
       ∧ Hook.shouldRestartRef (Hook.startListening (Some cb) throws s0) = true
       ∧ Hook.onSpeechEndRef (Hook.startListening (Some cb) throws s0)
         = Some cb)
  ∧ (∀ ctor acts s' throws,
       Hook.run acts (Hook.init ctor) = Some s' →
       Hook.shouldRestartRef s' = true →
       ∃ cb, Hook.onSpeechEndRef s' = Some cb
             ∧ Hook.fire Hook.RetryTimer throws s'
               = Hook.startListening (Some cb) throws s')
  ∧ (∀ s' throws, Hook.shouldRestartRef s' = false →
       Hook.fire Hook.RetryTimer throws s' = s')
  ∧ (∀ s', Hook.shouldRestartRef (Hook.stopListening s') = false)
  ∧ (∀ s' error',
       Hook.isVoiceModeRef s' = false ∨ Hook.shouldRestartRef s' = false
       ∨ error' = lit "aborted" →
       Hook.onerror error' s'
       = Hook.setRecognitionRef None (Hook.setIsListening false s')).
Proof.
  intros Hvoice Hrestart Herr.
  assert (Hon : Hook.onerror error s
    = Hook.setTimeout Hook.RetryTimer 1000
        (Hook.setRecognitionRef None (Hook.setIsListening false s))).
  { rewrite HookFacts.onerror_unfold. cbv zeta.
    rewrite Hvoice, Hrestart. by rewrite bool_decide_eq_false_2. }
  split_and!.
  - done.
  - by rewrite Hon.
  - apply hook_voice_started.
  - intros ctor acts s' throws Hrun' Hrestart'.
    assert (Hr' : Hook.reachable s').
    { eapply HookFacts.run_reachable; [apply Hook.reachable_init|done]. }
    destruct (HookFacts.reachable_voice s' Hr') as [_ Hcb].
    destruct (Hcb Hrestart') as [cb Hcbeq]. exists cb. split; [done|].
    simpl. by rewrite Hrestart', Hcbeq.
  - intros s' throws Hrestart'. simpl. by rewrite Hrestart'.
  - intros s'. unfold Hook.stopListening. by repeat case_match.
  - intros s' error' Hcase. rewrite HookFacts.onerror_unfold. cbv zeta.
    destruct Hcase as [->| [->| ->]].
    + done.
    + by rewrite andb_false_r.
    + rewrite bool_decide_eq_true_2 by done. by rewrite andb_false_r.
Qed.

Lemma voice_mode_error_retry_witness :
  ∃ s,
    (Hook.run [Hook.Mount; Hook.StartListening (Some 7) false;
               Hook.Deliver 0 EvStart]
       (Hook.init true) = Some s
     ∧ Hook.isVoiceModeRef s = true
     ∧ Hook.shouldRestartRef s = true
     ∧ lit "network" ≠ lit "aborted")
    ∧ Hook.timers (Hook.onerror (lit "network") s)
      = [{| Hook.body := Hook.RetryTimer; Hook.delay := 1000 |}].
Proof.
  eexists. split.
  - split; [by vm_compute|]. split; [done|]. split; [done|]. by vm_compute.
  - match goal with
    | |- Hook.timers (Hook.onerror _ ?s) = _ =>
        pose proof (voice_mode_error_retry s (lit "network")
          eq_refl eq_refl ltac:(by vm_compute)) as (_ & H & _)
    end.
    exact H.
Defined.

(** C5. A call of [startListening] that passes its guards clears the
    accumulated finalized text, and the [onstart] handler sets the
    transcript to the empty string; so does the start event the platform
    delivers to the recognizer the call created.  Both revisions. *)
Theorem new_session_resets_transcript
    (onSpeechEnd : option Callback) (throws : bool)
    (sh : Hook.State) (sp : Part000.State) :
  Hook.isSupported sh = true →
  Hook.speechRecognitionCtor sh = true →
  Part000.isSupported sp = true →
  Part000.isListening sp = false →
  Part000.speechRecognitionCtor sp = true →
  (Hook.finalTranscriptRef (Hook.startListening onSpeechEnd throws sh) = []
   ∧ (∀ s, Hook.transcript (Hook.onstart s) = [])
   ∧ ∃ s', Hook.deliver (length (Hook.heap sh)) EvStart
             (Hook.startListening onSpeechEnd false sh) = Some s'
           ∧ Hook.transcript s' = []
           ∧ Hook.finalTranscriptRef s' = [])
  ∧ (Part000.finalTranscriptRef
       (Part000.startListening onSpeechEnd throws sp) = []
     ∧ (∀ s, Part000.transcript (Part000.onstart s) = [])
     ∧ ∃ s', Part000.deliver (length (Part000.heap sp)) EvStart
               (Part000.startListening onSpeechEnd false sp) = Some s'
             ∧ Part000.transcript s' = []
             ∧ Part000.finalTranscriptRef s' = []).
Proof.
  intros Hsup Hctor Psup Plis Pctor. split; split_and!.
  - by rewrite HookFacts.startListening_unfold, Hsup, Hctor.
  - done.
  - rewrite HookFacts.startListening_unfold, Hsup, Hctor. simpl.
    unfold Hook.deliver. simpl.
    rewrite lookup_app_r by lia. rewrite Nat.sub_diag. simpl.
    eexists. split; [done|]. done.
  - by rewrite Part000Facts.part_startListening_unfold, Psup, Plis, Pctor.
  - done.
  - rewrite Part000Facts.part_startListening_unfold, Psup, Plis, Pctor. simpl.
    unfold Part000.deliver. simpl.
    rewrite lookup_app_r by lia. rewrite Nat.sub_diag. simpl.
    eexists. split; [done|]. done.
Qed.

Lemma new_session_resets_transcript_witness :
  ∃ s,
    Hook.run [Hook.Mount; Hook.StartListening None false;
              Hook.Deliver 0 EvStart; Hook.Deliver 0 (EvResult firstEvent);
              Hook.Deliver 0 EvEnd]
      (Hook.init true) = Some s
    ∧ (Hook.isSupported s = true
       ∧ Hook.speechRecognitionCtor s = true
       ∧ Part000.isSupported mountedPart = true
       ∧ Part000.isListening mountedPart = false
       ∧ Part000.speechRecognitionCtor mountedPart = true)
    ∧ Hook.transcript s = lit "merhaba "
    ∧ Hook.finalTranscriptRef s = lit "merhaba "
    ∧ Hook.finalTranscriptRef (Hook.startListening None false s) = []
    ∧ Hook.transcript (Hook.onstart (Hook.startListening None false s)) = [].
Proof.
  eexists. split; [by vm_compute|]. split; [by vm_compute|].
  split; [by vm_compute|]. split; [by vm_compute|].
  match goal with
  | |- Hook.finalTranscriptRef (Hook.startListening _ _ ?s) = _ ∧ _ =>
      pose proof (new_session_resets_transcript None false s mountedPart
        ltac:(by vm_compute) ltac:(by vm_compute) ltac:(by vm_compute)
        ltac:(by vm_compute) ltac:(by vm_compute)) as ((H1 & H2 & _) & _)
  end.
  split; [exact H1|apply H2].
Defined.

(** ** The supported flag (C6) *)

Lemma hook_step_isSupported a s s' :
  Hook.step a s = Some s' → a ≠ Hook.Mount →
  Hook.isSupported s' = Hook.isSupported s.
Proof.
  intros Hstep Ha. destruct a; simpl in Hstep; [done|..].
  - injection Hstep as <-. rewrite HookFacts.startListening_unfold.
    by case_match.
  - injection Hstep as <-. unfold Hook.stopListening. by repeat case_match.
  - by injection Hstep as <-.
  - injection Hstep as <-. unfold Hook.restartListening. by case_match.
  - unfold Hook.deliver in Hstep.
    destruct (Hook.heap s !! r) as [o|]; simpl in Hstep; [|done].
    destruct (nextPhase ev (Rec.phase o)) as [p|]; simpl in Hstep; [|done].
    injection Hstep as <-.
    destruct (slot ev o) as [c|]; [|done].
    destruct c, ev; simpl; try done.
    + rewrite HookFacts.onresult_unfold. simpl. by case_match.
    + unfold Hook.onend. by case_match.
    + unfold Hook.onend. by case_match.
    + unfold Hook.onend. by case_match.
    + unfold Hook.onend. by case_match.
    + rewrite HookFacts.onerror_unfold. simpl. by case_match.
  - destruct (Hook.timers s !! i) as [t|]; simpl in Hstep; [|done].
    injection Hstep as <-. destruct (Hook.body t); simpl.
    + by case_match.
    + case_match; [|done]. rewrite HookFacts.startListening_unfold.
      by case_match.
    + case_match; [|done]. rewrite HookFacts.startListening_unfold.
      by case_match.
Qed.

Lemma hook_step_mounted a s s' :
  Hook.step a s = Some s' → Hook.mounted s = true →
  Hook.mounted s' = true ∧ a ≠ Hook.Mount.
Proof.
  intros Hstep Hm. destruct a; simpl in Hstep.
  - by rewrite Hm in Hstep.
  - injection Hstep as <-. rewrite HookFacts.startListening_unfold.
    by case_match.
  - injection Hstep as <-. unfold Hook.stopListening. by repeat case_match.
  - by injection Hstep as <-.
  - injection Hstep as <-. unfold Hook.restartListening. by case_match.
  - unfold Hook.deliver in Hstep.
    destruct (Hook.heap s !! r) as [o|]; simpl in Hstep; [|done].
    destruct (nextPhase ev (Rec.phase o)) as [p|]; simpl in Hstep; [|done].
    injection Hstep as <-.
    destruct (slot ev o) as [c|]; [|done].
    destruct c, ev; simpl; try done.
    + rewrite HookFacts.onresult_unfold. simpl. by case_match.
    + unfold Hook.onend. by case_match.
    + unfold Hook.onend. by case_match.
    + unfold Hook.onend. by case_match.
    + unfold Hook.onend. by case_match.
    + rewrite HookFacts.onerror_unfold. simpl. by case_match.
  - destruct (Hook.timers s !! i) as [t|]; simpl in Hstep; [|done].
    injection Hstep as <-. destruct (Hook.body t); simpl.
    + by case_match.
    + case_match; [|done]. rewrite HookFacts.startListening_unfold.
      by case_match.
    + case_match; [|done]. rewrite HookFacts.startListening_unfold.
      by case_match.
Qed.

Lemma hook_run_isSupported acts s s' :
  Hook.run acts s = Some s' → Hook.mounted s = true →
  Hook.isSupported s' = Hook.isSupported s ∧ Hook.mounted s' = true.
Proof.
  revert s. induction acts as [|a acts IH]; intros s Hrun Hm; simpl in Hrun.
  - by injection Hrun as <-.
  - destruct (Hook.step a s) as [s1|] eqn:Hs; simpl in Hrun; [|done].
    destruct (hook_step_mounted a s s1 Hs Hm) as [Hm1 Ha].
    destruct (IH s1 Hrun Hm1) as [-> ?]. split; [|done].
    by apply hook_step_isSupported with a.
Qed.

Lemma part_step_isSupported a s s' :
  Part000.step a s = Some s' → a ≠ Part000.Mount →
  Part000.isSupported s' = Part000.isSupported s.
Proof.
  intros Hstep Ha. destruct a; simpl in Hstep; [done|..].
  - injection Hstep as <-. rewrite Part000Facts.part_startListening_unfold.
    by case_match.
  - injection Hstep as <-. unfold Part000.stopListening. by repeat case_match.
  - by injection Hstep as <-.
  - unfold Part000.deliver in Hstep.
    destruct (Part000.heap s !! r) as [o|]; simpl in Hstep; [|done].
    destruct (nextPhase ev (Rec.phase o)) as [p|]; simpl in Hstep; [|done].
    injection Hstep as <-.
    destruct (slot ev o) as [c|]; [|done].
    destruct c, ev; simpl; try done.
    + rewrite Part000Facts.part_onresult_unfold. simpl. by repeat case_match.
    + unfold Part000.onend. by case_match.
    + unfold Part000.onend. by case_match.
    + unfold Part000.onend. by case_match.
    + unfold Part000.onend. by case_match.
Qed.

Lemma part_step_mounted a s s' :
  Part000.step a s = Some s' → Part000.mounted s = true →
  Part000.mounted s' = true ∧ a ≠ Part000.Mount.
Proof.
  intros Hstep Hm. destruct a; simpl in Hstep.
  - by rewrite Hm in Hstep.
  - injection Hstep as <-. rewrite Part000Facts.part_startListening_unfold.
    by case_match.
  - injection Hstep as <-. unfold Part000.stopListening. by repeat case_match.
  - by injection Hstep as <-.
  - unfold Part000.deliver in Hstep.
    destruct (Part000.heap s !! r) as [o|]; simpl in Hstep; [|done].
    destruct (nextPhase ev (Rec.phase o)) as [p|]; simpl in Hstep; [|done].
    injection Hstep as <-.
    destruct (slot ev o) as [c|]; [|done].
    destruct c, ev; simpl; try done.
    + rewrite Part000Facts.part_onresult_unfold. simpl. by repeat case_match.
    + unfold Part000.onend. by case_match.
    + unfold Part000.onend. by case_match.
    + unfold Part000.onend. by case_match.
    + unfold Part000.onend. by case_match.
Qed.

Lemma part_run_isSupported acts s s' :
  Part000.run acts s = Some s' → Part000.mounted s = true →
  Part000.isSupported s' = Part000.isSupported s ∧ Part000.mounted s' = true.
Proof.
  revert s. induction acts as [|a acts IH]; intros s Hrun Hm; simpl in Hrun.
  - by injection Hrun as <-.
  - destruct (Part000.step a s) as [s1|] eqn:Hs; simpl in Hrun; [|done].
    destruct (part_step_mounted a s s1 Hs Hm) as [Hm1 Ha].
    destruct (IH s1 Hrun Hm1) as [-> ?]. split; [|done].
    by apply part_step_isSupported with a.
Qed.

(** C6. The initialization effect sets the supported flag to whether the
    platform has a SpeechRecognition constructor; it runs once; and after
    it, whatever the UI, the platform and the timers do, the flag keeps that
    value: no step other than the effect changes it.  Both revisions. *)
Theorem supported_flag_set_once
    (ctor : bool) (actsH : list Hook.Action) (sh : Hook.State)
    (actsP : list Part000.Action) (sp : Part000.State) :
  Hook.run (Hook.Mount :: actsH) (Hook.init ctor) = Some sh →
  Part000.run (Part000.Mount :: actsP) (Part000.init ctor) = Some sp →
  (Hook.isSupported sh = ctor
   ∧ Hook.step Hook.Mount sh = None
   ∧ ∀ a s s', Hook.step a s = Some s' → a ≠ Hook.Mount →
       Hook.isSupported s' = Hook.isSupported s)
  ∧ (Part000.isSupported sp = ctor
     ∧ Part000.step Part000.Mount sp = None
     ∧ ∀ a s s', Part000.step a s = Some s' → a ≠ Part000.Mount →
         Part000.isSupported s' = Part000.isSupported s).
Proof.
  intros HrunH HrunP.
  assert (Hh : Hook.isSupported sh = ctor ∧ Hook.mounted sh = true).
  { destruct ctor; simpl in HrunH;
      by apply hook_run_isSupported in HrunH as [-> ?]. }
  assert (Hp : Part000.isSupported sp = ctor ∧ Part000.mounted sp = true).
  { destruct ctor; simpl in HrunP;
      by apply part_run_isSupported in HrunP as [-> ?]. }
  destruct Hh as [Hh1 Hh2], Hp as [Hp1 Hp2]. split; split_and!.
  - done.
  - simpl. by rewrite Hh2.
  - apply hook_step_isSupported.
  - done.
  - simpl. by rewrite Hp2.
  - apply part_step_isSupported.
Qed.

Lemma supported_flag_set_once_witness :
  ∃ sh sp,
    (Hook.run [Hook.Mount; Hook.StartListening (Some 7) false;
               Hook.Deliver 0 EvStart; Hook.Deliver 0 (EvError (lit "network"));
               Hook.Fire 0 false; Hook.StopListening]
       (Hook.init true) = Some sh
     ∧ Part000.run [Part000.Mount; Part000.StartListening None false;
                    Part000.Deliver 0 EvStart; Part000.ResetTranscript]
         (Part000.init true) = Some sp)
    ∧ Hook.isSupported sh = true
    ∧ Hook.step Hook.Mount sh = None
    ∧ Part000.isSupported sp = true.
Proof.
  eexists. eexists. split; [split; by vm_compute|].
  match goal with
  | |- Hook.isSupported ?sh = _ ∧ _ ∧ Part000.isSupported ?sp = _ =>
      pose proof (supported_flag_set_once true
        [Hook.StartListening (Some 7) false;
         Hook.Deliver 0 EvStart; Hook.Deliver 0 (EvError (lit "network"));
         Hook.Fire 0 false; Hook.StopListening] sh
        [Part000.StartListening None false;
         Part000.Deliver 0 EvStart; Part000.ResetTranscript] sp
        ltac:(by vm_compute) ltac:(by vm_compute))
        as ((H1 & H2 & _) & (H3 & _))
  end.
  split; [exact H1|]. split; [exact H2|exact H3].
Defined.

(** ** Wiring (C7) *)

Lemma hook_invoke_handle c ev s :
  Hook.invoke c ev s = s ∨ ∃ r ev', Hook.invoke c ev s = Hook.handle r ev' s.
Proof.
  destruct c, ev; simpl; first [by left | right].
  all: first
    [ by exists 0, EvStart
    | by exists recognition, (EvResult event)
    | by exists 0, EvEnd
    | by exists 0, (EvError error) ].
Qed.

Lemma part_invoke_handle c ev s :
  Part000.invoke c ev s = s
  ∨ ∃ r ev', Part000.invoke c ev s = Part000.handle r ev' s.
Proof.
  destruct c, ev; simpl; first [by left | right].
  all: first
    [ by exists 0, EvStart
    | by exists recognition, (EvResult event)
    | by exists 0, EvEnd
    | by exists 0, (EvError error) ].
Qed.

(** C7. A call of [startListening] that passes its guards allocates a new
    recognizer, leaves the older ones as they are, puts the hook's four
    handlers (start, result, end, error) in its slots, and calls [start()]
    on it as its last call, after which the recognizer is starting unless
    the platform threw.  Whatever closure the platform calls with whatever
    event, the handlers leave the supported flag, the stored callback, the
    two voice-mode flags and the recognizer objects unchanged: they write
    the listening flag, the transcript with its accumulated finalized text,
    and, in the voice-mode revision only, the bookkeeping of the restart (the
    current-recognizer reference and the pending timers).  Both revisions. *)
Theorem startListening_wires_recognizer
    (onSpeechEnd : option Callback) (throws : bool)
    (sh : Hook.State) (sp : Part000.State) :
  Hook.isSupported sh = true →
  Hook.speechRecognitionCtor sh = true →
  Part000.isSupported sp = true →
  Part000.isListening sp = false →
  Part000.speechRecognitionCtor sp = true →
  (let r := length (Hook.heap sh) in
   let s' := Hook.startListening onSpeechEnd throws sh in
   Hook.heap sh !! r = None
   ∧ (∀ r' o', Hook.heap sh !! r' = Some o' → Hook.heap s' !! r' = Some o')
   ∧ (∃ o, Hook.heap s' !! r = Some o ∧ wired r o
           ∧ Rec.phase o = if throws then Idle else Starting)
   ∧ (∃ earlier, Hook.calls s' = earlier ++ [CallStart r])
   ∧ ∀ c ev s,
       let s1 := Hook.invoke c ev s in
       Hook.isSupported s1 = Hook.isSupported s
       ∧ Hook.onSpeechEndRef s1 = Hook.onSpeechEndRef s
       ∧ Hook.isVoiceModeRef s1 = Hook.isVoiceModeRef s
       ∧ Hook.shouldRestartRef s1 = Hook.shouldRestartRef s
       ∧ Hook.mounted s1 = Hook.mounted s
       ∧ Hook.speechRecognitionCtor s1 = Hook.speechRecognitionCtor s
       ∧ Hook.heap s1 = Hook.heap s)
  ∧ (let r := length (Part000.heap sp) in
     let s' := Part000.startListening onSpeechEnd throws sp in
     Part000.heap sp !! r = None
     ∧ (∀ r' o', Part000.heap sp !! r' = Some o' →
          Part000.heap s' !! r' = Some o')
     ∧ (∃ o, Part000.heap s' !! r = Some o ∧ wired r o
             ∧ Rec.phase o = if throws then Idle else Starting)
     ∧ (∃ earlier, Part000.calls s' = earlier ++ [CallStart r])
     ∧ ∀ c ev s,
         let s1 := Part000.invoke c ev s in
         Part000.isSupported s1 = Part000.isSupported s
         ∧ Part000.onSpeechEndRef s1 = Part000.onSpeechEndRef s
         ∧ Part000.recognitionRef s1 = Part000.recognitionRef s
         ∧ Part000.mounted s1 = Part000.mounted s
         ∧ Part000.speechRecognitionCtor s1 = Part000.speechRecognitionCtor s
         ∧ Part000.heap s1 = Part000.heap s).
Proof.
  intros Hsup Hctor Psup Plis Pctor. split; cbv zeta.
  - rewrite HookFacts.startListening_unfold, Hsup, Hctor. simpl.
    split_and!.
    + by apply lookup_ge_None_2.
    + intros r' o' Hl. by apply lookup_app_l_Some.
    + eexists. split; [|split].
      * rewrite lookup_app_r by lia. by rewrite Nat.sub_diag.
      * apply wired_withPhase, wired_configure.
      * done.
    + by eexists.
    + intros c ev s.
      destruct (hook_invoke_handle c ev s) as [->|(r & ev' & ->)]; [done|].
      apply HookFacts.handle_frame.
  - rewrite Part000Facts.part_startListening_unfold, Psup, Plis, Pctor. simpl.
    split_and!.
    + by apply lookup_ge_None_2.
    + intros r' o' Hl. by apply lookup_app_l_Some.
    + eexists. split; [|split].
      * rewrite lookup_app_r by lia. by rewrite Nat.sub_diag.
      * apply wired_withPhase, wired_configure.
      * done.
    + by eexists.
    + intros c ev s.
      destruct (part_invoke_handle c ev s) as [->|(r & ev' & ->)]; [done|].
      apply Part000Facts.part_handle_frame.
Qed.

Lemma startListening_wires_recognizer_witness :
  (Hook.isSupported mountedHook = true
   ∧ Hook.speechRecognitionCtor mountedHook = true
   ∧ Part000.isSupported mountedPart = true
   ∧ Part000.isListening mountedPart = false
   ∧ Part000.speechRecognitionCtor mountedPart = true)
  ∧ (∃ o, Hook.heap (Hook.startListening (Some 7) false mountedHook) !! 0
          = Some o
          ∧ wired 0 o ∧ Rec.phase o = Starting)
  ∧ (∃ earlier,
       Hook.calls (Hook.startListening (Some 7) false mountedHook)
       = earlier ++ [CallStart 0]).
Proof.
  split; [by vm_compute|].
  pose proof (startListening_wires_recognizer (Some 7) false
    mountedHook mountedPart eq_refl eq_refl eq_refl eq_refl eq_refl)
    as ((_ & _ & H3 & H4 & _) & _).
  split; [exact H3|exact H4].
Defined.

(** C8. With the supported flag false, [startListening] returns the state
    it was given: no recognizer is created, and the listening flag, the
    transcript, the refs, the timers and the call log are unchanged.  Both
    revisions. *)
Theorem startListening_unsupported_noop
    (onSpeechEnd : option Callback) (throws : bool)
    (sh : Hook.State) (sp : Part000.State) :
  Hook.isSupported sh = false →
  Part000.isSupported sp = false →
  Hook.startListening onSpeechEnd throws sh = sh
  ∧ Part000.startListening onSpeechEnd throws sp = sp.
Proof.
  intros Hsup Psup. split.
  - unfold Hook.startListening. by rewrite Hsup.
  - unfold Part000.startListening. by rewrite Psup.
Qed.

Lemma startListening_unsupported_noop_witness :
  (Hook.isSupported (Hook.init false) = false
   ∧ Part000.isSupported (Part000.init false) = false)
  ∧ Hook.startListening (Some 7) false (Hook.init false) = Hook.init false
  ∧ Part000.startListening (Some 7) false (Part000.init false)
    = Part000.init false.
Proof.
  split; [done|].
  exact (startListening_unsupported_noop (Some 7) false
           (Hook.init false) (Part000.init false) eq_refl eq_refl).
Defined.

(** ** The caller's callback (C9) *)

(** C9. On every run of the hook, each call of the [onSpeechEnd] callback
    in the call log carries a non-empty text and has a [stop()] call before
    it.  The text is the trimmed accumulated finalized transcript: in the
    voice-mode revision [onresult] calls [recognition.stop()] and schedules,
    100 ms later, the call with [trim] of the accumulated text, and the
    timer passes that text to the stored callback; in the plain revision
    [onresult] calls [recognition.stop()] and then the callback at once. *)
Theorem onSpeechEnd_called_with_text
    (ctor : bool) (actsH : list Hook.Action) (sh : Hook.State)
    (actsP : list Part000.Action) (sp : Part000.State) :
  Hook.run actsH (Hook.init ctor) = Some sh →
  Part000.run actsP (Part000.init ctor) = Some sp →
  (callbacksOk (Hook.calls sh)
   ∧ (∀ r event,
        let s' := Hook.onresult r event sh in
        let fullText := trim (Hook.finalTranscriptRef s') in
        (Hook.timers s' = Hook.timers sh ∧ Hook.calls s' = Hook.calls sh)
        ∨ (fullText ≠ []
           ∧ Hook.timers s'
             = Hook.timers sh
               ++ [{| Hook.body := Hook.SpeechEndTimer fullText;
                      Hook.delay := 100 |}]
           ∧ Hook.calls s' = Hook.calls sh ++ [CallStop r]))
   ∧ (∀ text throws,
        let s' := Hook.fire (Hook.SpeechEndTimer text) throws sh in
        Hook.calls s' = Hook.calls sh
        ∨ ∃ cb, Hook.onSpeechEndRef sh = Some cb
                ∧ Hook.calls s'
                  = Hook.calls sh ++ [CallOnSpeechEnd cb text]))
  ∧ (callbacksOk (Part000.calls sp)
     ∧ ∀ r event,
         let s' := Part000.onresult r event sp in
         let fullText := trim (Part000.finalTranscriptRef s') in
         Part000.calls s' = Part000.calls sp
         ∨ ∃ cb, Part000.onSpeechEndRef sp = Some cb
                 ∧ fullText ≠ []
                 ∧ Part000.calls s'
                   = Part000.calls sp
                     ++ [CallStop r; CallOnSpeechEnd cb fullText]).
Proof.
  intros HrunH HrunP.
  assert (Hr : Hook.reachable sh).
  { eapply HookFacts.run_reachable; [apply Hook.reachable_init|done]. }
  assert (Pr : Part000.reachable sp).
  { eapply Part000Facts.part_run_reachable; [apply Part000.reachable_init|done]. }
  split; split_and!.
  - by apply HookFacts.reachable_callbacks.
  - intros r event. cbv zeta. rewrite HookFacts.onresult_unfold. cbv zeta.
    destruct (truthy (finalText (fresh event))
              && bool_decide (is_Some (Hook.onSpeechEndRef sh))
              && truthy (trim (Hook.finalTranscriptRef sh
                               ++ finalText (fresh event)))) eqn:Hc.
    + right. apply andb_prop in Hc as [_ Hfull].
      apply truthy_true in Hfull. by simpl.
    + by left.
  - intros text throws. simpl. destruct (Hook.onSpeechEndRef sh) as [cb|].
    + right. by exists cb.
    + by left.
  - by apply Part000Facts.part_reachable_callbacks.
  - intros r event. cbv zeta. rewrite Part000Facts.part_onresult_unfold. cbv zeta.
    destruct (Part000.onSpeechEndRef sp) as [cb|]; [|by left].
    destruct (truthy (finalText (fresh event))
              && truthy (trim (Part000.finalTranscriptRef sp
                               ++ finalText (fresh event)))) eqn:Hc.
    + right. exists cb. apply andb_prop in Hc as [_ Hfull].
      apply truthy_true in Hfull. simpl. split_and!; [done..|].
      by rewrite <-app_assoc.
    + by left.
Qed.

Lemma onSpeechEnd_called_with_text_witness :
  ∃ sh sp,
    (Hook.run [Hook.Mount; Hook.StartListening (Some 7) false;
               Hook.Deliver 0 EvStart; Hook.Deliver 0 (EvResult firstEvent);
               Hook.Fire 0 false]
       (Hook.init true) = Some sh
     ∧ Part000.run [Part000.Mount; Part000.StartListening (Some 7) false;
                    Part000.Deliver 0 EvStart;
                    Part000.Deliver 0 (EvResult firstEvent)]
         (Part000.init true) = Some sp)
    ∧ Hook.calls sh
      = [CallStart 0; CallStop 0; CallOnSpeechEnd 7 (lit "merhaba")]
    ∧ Part000.calls sp
      = [CallStart 0; CallStop 0; CallOnSpeechEnd 7 (lit "merhaba")]
    ∧ callbacksOk (Hook.calls sh)
    ∧ callbacksOk (Part000.calls sp).
Proof.
  eexists. eexists. split; [split; by vm_compute|].
  split; [by vm_compute|]. split; [by vm_compute|].
  match goal with
  | |- callbacksOk (Hook.calls ?sh) ∧ callbacksOk (Part000.calls ?sp) =>
      pose proof (onSpeechEnd_called_with_text true
        [Hook.Mount; Hook.StartListening (Some 7) false;
         Hook.Deliver 0 EvStart; Hook.Deliver 0 (EvResult firstEvent);
         Hook.Fire 0 false] sh
        [Part000.Mount; Part000.StartListening (Some 7) false;
         Part000.Deliver 0 EvStart;
         Part000.Deliver 0 (EvResult firstEvent)] sp
        ltac:(by vm_compute) ltac:(by vm_compute))
        as ((H1 & _) & (H2 & _))
  end.
  split; [exact H1|exact H2].
Defined.

(** ** Manual mode (C10) *)

Lemma hook_onend_manual s :
  Hook.isVoiceModeRef s = false → Hook.finalTranscriptRef s ≠ [] →
  Hook.transcript (Hook.onend s) = Hook.finalTranscriptRef s
  ∧ Hook.isListening (Hook.onend s) = false.
Proof.
  intros Hv Hf. apply truthy_true in Hf. unfold Hook.onend. simpl.
  by rewrite Hv, Hf.
Qed.

Lemma part_onend_manual s :
  Part000.onSpeechEndRef s = None → Part000.finalTranscriptRef s ≠ [] →
  Part000.transcript (Part000.onend s) = Part000.finalTranscriptRef s
  ∧ Part000.isListening (Part000.onend s) = false.
Proof.
  intros Hv Hf. apply truthy_true in Hf. unfold Part000.onend. simpl.
  by rewrite Hv, Hf.
Qed.

(** C10. On every state the hook can reach with no [onSpeechEnd] callback
    stored (manual mode) and a non-empty accumulated finalized text, the
    [onend] handler, also when run by the end event the platform delivers,
    sets the transcript to exactly the finalized text, whatever was shown
    before, and clears the listening flag.  Both revisions. *)
Theorem onend_manual_keeps_final_text
    (ctor : bool) (actsH : list Hook.Action) (sh : Hook.State)
    (actsP : list Part000.Action) (sp : Part000.State) :
  Hook.run actsH (Hook.init ctor) = Some sh →
  Hook.onSpeechEndRef sh = None →
  Hook.finalTranscriptRef sh ≠ [] →
  Part000.run actsP (Part000.init ctor) = Some sp →
  Part000.onSpeechEndRef sp = None →
  Part000.finalTranscriptRef sp ≠ [] →
  (Hook.transcript (Hook.onend sh) = Hook.finalTranscriptRef sh
   ∧ ∀ r s', Hook.deliver r EvEnd sh = Some s' →
       Hook.transcript s' = Hook.finalTranscriptRef sh
       ∧ Hook.isListening s' = false)
  ∧ (Part000.transcript (Part000.onend sp) = Part000.finalTranscriptRef sp
     ∧ ∀ r s', Part000.deliver r EvEnd sp = Some s' →
         Part000.transcript s' = Part000.finalTranscriptRef sp
         ∧ Part000.isListening s' = false).
Proof.
  intros HrunH Hcb Hf HrunP Pcb Pf.
  assert (Hr : Hook.reachable sh).
  { eapply HookFacts.run_reachable; [apply Hook.reachable_init|done]. }
  assert (Pr : Part000.reachable sp).
  { eapply Part000Facts.part_run_reachable; [apply Part000.reachable_init|done]. }
  assert (Hv : Hook.isVoiceModeRef sh = false).
  { destruct (Hook.isVoiceModeRef sh) eqn:Hv; [|done].
    destruct (HookFacts.reachable_voice sh Hr) as [Hsome _].
    destruct (Hsome Hv) as [cb Hcb']. congruence. }
  split; split.
  - by apply hook_onend_manual.
  - intros r s' Hd.
    apply HookFacts.deliver_wired in Hd as (o & p & _ & _ & ->);
      [|by apply HookFacts.reachable_wiredHeap].
    cbn [Hook.handle].
    by apply (hook_onend_manual (Hook.setPhase r p sh)).
  - by apply part_onend_manual.
  - intros r s' Hd.
    apply Part000Facts.part_deliver_wired in Hd as (o & p & _ & _ & ->);
      [|by apply Part000Facts.part_reachable_wiredHeap].
    cbn [Part000.handle].
    by apply (part_onend_manual (Part000.setPhase r p sp)).
Qed.

Lemma onend_manual_keeps_final_text_witness :
  ∃ sh sp,
    (Hook.run [Hook.Mount; Hook.StartListening None false;
               Hook.Deliver 0 EvStart; Hook.Deliver 0 (EvResult firstEvent)]
       (Hook.init true) = Some sh
     ∧ Hook.onSpeechEndRef sh = None
     ∧ Hook.finalTranscriptRef sh ≠ []
     ∧ Part000.run [Part000.Mount; Part000.StartListening None false;
                    Part000.Deliver 0 EvStart;
                    Part000.Deliver 0 (EvResult firstEvent)]
         (Part000.init true) = Some sp
     ∧ Part000.onSpeechEndRef sp = None
     ∧ Part000.finalTranscriptRef sp ≠ [])
    ∧ Hook.transcript sh = lit "merhaba dun"
    ∧ Hook.transcript (Hook.onend sh) = lit "merhaba "
    ∧ Part000.transcript (Part000.onend sp) = lit "merhaba ".
Proof.
  eexists. eexists.
  split; [split_and!; by vm_compute|]. split; [by vm_compute|].
  match goal with
  | |- Hook.transcript (Hook.onend ?sh) = _
       ∧ Part000.transcript (Part000.onend ?sp) = _ =>
      pose proof (onend_manual_keeps_final_text true
        [Hook.Mount; Hook.StartListening None false;
         Hook.Deliver 0 EvStart; Hook.Deliver 0 (EvResult firstEvent)] sh
        [Part000.Mount; Part000.StartListening None false;
         Part000.Deliver 0 EvStart;
         Part000.Deliver 0 (EvResult firstEvent)] sp
        ltac:(by vm_compute) ltac:(by vm_compute) ltac:(by vm_compute)
        ltac:(by vm_compute) ltac:(by vm_compute) ltac:(by vm_compute))
        as ((H1 & _) & (H2 & _))
  end.
  split; [exact H1|exact H2].
Defined.

(** * Further properties of the hook *)

(** ** Shared lemmas *)

Lemma startedIds_snoc l c :
  startedIds (l ++ [c])
  = startedIds l ++ match c with CallStart r => [r] | _ => [] end.
Proof. unfold startedIds. rewrite omap_app. by destruct c. Qed.

Lemma hook_handle_calls r ev s :
  Hook.calls (Hook.handle r ev s) = Hook.calls s
  ∨ Hook.calls (Hook.handle r ev s) = Hook.calls s ++ [CallStop r].
Proof.
  destruct ev; cbn [Hook.handle].
  - by left.
  - rewrite HookFacts.onresult_unfold. cbv zeta. case_match; [by right|by left].
  - left. unfold Hook.onend. by case_match.
  - left. rewrite HookFacts.onerror_unfold. cbv zeta. by case_match.
Qed.

Lemma hook_handle_recognitionRef r ev s :
  Hook.recognitionRef (Hook.handle r ev s) = Hook.recognitionRef s
  ∨ Hook.recognitionRef (Hook.handle r ev s) = None.
Proof.
  destruct ev; cbn [Hook.handle].
  - by left.
  - left. rewrite HookFacts.onresult_unfold. cbv zeta. by case_match.
  - right. unfold Hook.onend. by case_match.
  - right. rewrite HookFacts.onerror_unfold. cbv zeta. by case_match.
Qed.

Lemma part_handle_calls r ev s :
  Part000.calls (Part000.handle r ev s) = Part000.calls s
  ∨ ∃ cb text, Part000.calls (Part000.handle r ev s)
               = (Part000.calls s ++ [CallStop r])
                 ++ [CallOnSpeechEnd cb text].
Proof.
  destruct ev; cbn [Part000.handle].
  - by left.
  - rewrite Part000Facts.part_onresult_unfold. cbv zeta.
    repeat case_match; [right; by eexists _, _|by left..].
  - left. unfold Part000.onend. by case_match.
  - by left.
Qed.

Lemma hook_reachable_of_run ctor acts s :
  Hook.run acts (Hook.init ctor) = Some s → Hook.reachable s.
Proof.
  intros H. eapply HookFacts.run_reachable; [apply Hook.reachable_init|done].
Qed.

Lemma part_reachable_of_run ctor acts s :
  Part000.run acts (Part000.init ctor) = Some s → Part000.reachable s.
Proof.
  intros H.
  eapply Part000Facts.part_run_reachable; [apply Part000.reachable_init|done].
Qed.

(** ** The two voice-mode flags *)

Lemma hook_voice_flags_eq s :
  Hook.reachable s → Hook.isVoiceModeRef s = Hook.shouldRestartRef s.
Proof.
  revert s.
  apply (HookFacts.reachable_inv
           (λ s, Hook.isVoiceModeRef s = Hook.shouldRestartRef s)).
  - done.
  - intros s IH _. unfold Hook.effect. by case_match.
  - done.
  - intros s _. unfold Hook.stopListening. by repeat case_match.
  - done.
  - intros cb s IH. unfold Hook.restartListening. by case_match.
  - intros r ev o p s _ IH _ _.
    destruct (HookFacts.handle_frame r ev (Hook.setPhase r p s))
      as (_ & _ & -> & -> & _).
    done.
  - done.
  - done.
Qed.

(** X1. On every state the hook reaches, [isVoiceModeRef] and
    [shouldRestartRef] hold the same value: [startListening] sets both to
    whether a callback was given and [stopListening] clears both, so the
    test of both in [onerror] is a test of either. *)
Theorem voice_flags_agree
    (ctor : bool) (acts : list Hook.Action) (s : Hook.State) :
  Hook.run acts (Hook.init ctor) = Some s →
  Hook.isVoiceModeRef s = Hook.shouldRestartRef s.
Proof.
  intros Hrun. by apply hook_voice_flags_eq, (hook_reachable_of_run ctor acts).
Qed.

Lemma voice_flags_agree_witness :
  ∃ s,
    Hook.run [Hook.Mount; Hook.StartListening (Some 7) false;
              Hook.Deliver 0 EvStart; Hook.Deliver 0 (EvError (lit "network"))]
      (Hook.init true) = Some s
    ∧ Hook.isVoiceModeRef s = true
    ∧ Hook.isVoiceModeRef s = Hook.shouldRestartRef s.
Proof.
  eexists. split; [by vm_compute|]. split; [done|].
  match goal with
  | |- Hook.isVoiceModeRef ?s = _ =>
      exact (voice_flags_agree true
        [Hook.Mount; Hook.StartListening (Some 7) false;
         Hook.Deliver 0 EvStart; Hook.Deliver 0 (EvError (lit "network"))]
        s ltac:(by vm_compute))
  end.
Defined.

(** ** One [start()] per recognizer *)

Lemma hook_started_ids s :
  Hook.reachable s →
  startedIds (Hook.calls s) = seq 0 (length (Hook.heap s)).
Proof.
  revert s.
  apply (HookFacts.reachable_inv
    (λ s, startedIds (Hook.calls s) = seq 0 (length (Hook.heap s)))).
  - done.
  - intros s IH _. unfold Hook.effect. by case_match.
  - intros cb throws s IH _ _. simpl.
    rewrite length_app, Nat.add_1_r, seq_S, startedIds_snoc. simpl.
    f_equal. destruct (Hook.recognitionRef s).
    + by rewrite startedIds_snoc, app_nil_r.
    + by rewrite app_nil_r.
  - intros s IH. unfold Hook.stopListening. repeat case_match; simpl; try done.
    by rewrite startedIds_snoc, app_nil_r.
  - done.
  - intros cb s IH. unfold Hook.restartListening. by case_match.
  - intros r ev o p s _ IH _ _.
    destruct (HookFacts.handle_frame r ev (Hook.setPhase r p s))
      as (_ & _ & _ & _ & _ & _ & ->).
    simpl. rewrite length_alter.
    destruct (hook_handle_calls r ev (Hook.setPhase r p s)) as [->| ->].
    + done.
    + simpl. by rewrite startedIds_snoc, app_nil_r.
  - done.
  - intros i t text cb s IH _ _ _. simpl.
    by rewrite startedIds_snoc, app_nil_r.
Qed.

Lemma part_started_ids s :
  Part000.reachable s →
  startedIds (Part000.calls s) = seq 0 (length (Part000.heap s)).
Proof.
  revert s.
  apply (Part000Facts.part_reachable_inv
    (λ s, startedIds (Part000.calls s) = seq 0 (length (Part000.heap s)))).
  - done.
  - intros s IH _. unfold Part000.effect. by case_match.
  - intros cb throws s IH _ _ _. simpl.
    by rewrite length_app, Nat.add_1_r, seq_S, startedIds_snoc, IH.
  - intros s IH. unfold Part000.stopListening.
    repeat case_match; simpl; try done.
    by rewrite startedIds_snoc, app_nil_r.
  - done.
  - intros r ev o p s _ IH _ _.
    destruct (Part000Facts.part_handle_frame r ev (Part000.setPhase r p s))
      as (_ & _ & _ & _ & _ & ->).
    simpl. rewrite length_alter.
    destruct (part_handle_calls r ev (Part000.setPhase r p s))
      as [->|(cb & text & ->)].
    + done.
    + simpl. by rewrite !startedIds_snoc, !app_nil_r.
Qed.

(** X2. On every run, the recognizers on which the hook has called
    [start()] are exactly the recognizers it created, each once and in the
    order of creation: no recognizer is started twice, and none is left
    without a [start()] call.  Both revisions. *)
Theorem start_called_once_per_recognizer
    (ctor : bool) (actsH : list Hook.Action) (sh : Hook.State)
    (actsP : list Part000.Action) (sp : Part000.State) :
  Hook.run actsH (Hook.init ctor) = Some sh →
  Part000.run actsP (Part000.init ctor) = Some sp →
  (startedIds (Hook.calls sh) = seq 0 (length (Hook.heap sh))
   ∧ NoDup (startedIds (Hook.calls sh))
   ∧ ∀ r, CallStart r ∈ Hook.calls sh ↔ r < length (Hook.heap sh))
  ∧ (startedIds (Part000.calls sp) = seq 0 (length (Part000.heap sp))
     ∧ NoDup (startedIds (Part000.calls sp))
     ∧ ∀ r, CallStart r ∈ Part000.calls sp ↔ r < length (Part000.heap sp)).
Proof.
  intros Hh Hp.
  apply hook_reachable_of_run, hook_started_ids in Hh.
  apply part_reachable_of_run, part_started_ids in Hp.
  assert (Hmem : ∀ l n, startedIds l = seq 0 n →
            ∀ r, CallStart r ∈ l ↔ r < n).
  { intros l n Hl r. transitivity (r ∈ startedIds l).
    - unfold startedIds. rewrite list_elem_of_omap. split.
      + intros Hin. by exists (CallStart r).
      + intros (c & Hin & Hc). destruct c; simplify_eq. done.
    - rewrite Hl, list_elem_of_In, in_seq. lia. }
  split; split_and!; try done.
  - rewrite Hh. apply NoDup_ListNoDup, seq_NoDup.
  - by apply Hmem.
  - rewrite Hp. apply NoDup_ListNoDup, seq_NoDup.
  - by apply Hmem.
Qed.

Lemma start_called_once_per_recognizer_witness :
  ∃ sh sp,
    (Hook.run [Hook.Mount; Hook.StartListening (Some 7) false;
               Hook.Deliver 0 EvStart; Hook.StartListening None true;
               Hook.StartListening None false]
       (Hook.init true) = Some sh
     ∧ Part000.run [Part000.Mount; Part000.StartListening None false;
                    Part000.StartListening None false]
         (Part000.init true) = Some sp)
    ∧ Hook.calls sh = [CallStart 0; CallAbort 0; CallStart 1; CallStart 2]
    ∧ startedIds (Hook.calls sh) = seq 0 (length (Hook.heap sh))
    ∧ startedIds (Part000.calls sp) = seq 0 (length (Part000.heap sp)).
Proof.
  eexists. eexists. split; [split; by vm_compute|]. split; [by vm_compute|].
  match goal with
  | |- startedIds (Hook.calls ?sh) = _ ∧ startedIds (Part000.calls ?sp) = _ =>
      pose proof (start_called_once_per_recognizer true
        [Hook.Mount; Hook.StartListening (Some 7) false;
         Hook.Deliver 0 EvStart; Hook.StartListening None true;
         Hook.StartListening None false] sh
        [Part000.Mount; Part000.StartListening None false;
         Part000.StartListening None false] sp
        ltac:(by vm_compute) ltac:(by vm_compute))
        as ((H1 & _) & (H2 & _))
  end.
  split; [exact H1|exact H2].
Defined.

(** ** The current recognizer *)

Lemma hook_ref_newest s :
  Hook.reachable s →
  (∀ r, Hook.recognitionRef s = Some r → S r = length (Hook.heap s))
  ∧ (∀ r, CallStop r ∈ Hook.calls s → r < length (Hook.heap s))
  ∧ (∀ i r, Hook.calls s !! i = Some (CallAbort r) →
       Hook.calls s !! S i = Some (CallStart (S r))).
Proof.
  revert s.
  apply (HookFacts.reachable_inv (λ s,
    (∀ r, Hook.recognitionRef s = Some r → S r = length (Hook.heap s))
    ∧ (∀ r, CallStop r ∈ Hook.calls s → r < length (Hook.heap s))
    ∧ (∀ i r, Hook.calls s !! i = Some (CallAbort r) →
         Hook.calls s !! S i = Some (CallStart (S r))))).
  - intros ctor. split_and!.
    + done.
    + intros r Hin. simpl in Hin. by apply elem_of_nil in Hin.
    + intros i r Hi. simpl in Hi. by rewrite lookup_nil in Hi.
  - intros s IH _. unfold Hook.effect. by case_match.
  - intros cb throws s (IH1 & IH2 & IH3) _ _. simpl. split_and!.
    + intros r Hr. rewrite length_app. simpl.
      destruct throws; [done|]. injection Hr as <-. lia.
    + intros r Hin. rewrite length_app. simpl.
      apply elem_of_app in Hin as [Hin|Hin].
      * apply elem_of_app in Hin as [Hin|Hin].
        -- apply IH2 in Hin. lia.
        -- destruct (Hook.recognitionRef s); simpl in Hin.
           ++ by apply list_elem_of_singleton in Hin.
           ++ by apply elem_of_nil in Hin.
      * by apply list_elem_of_singleton in Hin.
    + intros i r Hi.
      destruct (Hook.recognitionRef s) as [cur|] eqn:Hcur.
      * rewrite <-app_assoc in Hi |- *. simpl in Hi |- *.
        apply lookup_app_Some in Hi as [Hi|[Hge Hi]].
        -- apply lookup_app_l_Some. by apply IH3.
        -- destruct (i - length (Hook.calls s)) as [|[|n]] eqn:Hn;
             simpl in Hi; [|done..].
           injection Hi as <-.
           assert (i = length (Hook.calls s)) as -> by lia.
           rewrite lookup_app_r by lia.
           replace (S (length (Hook.calls s)) - length (Hook.calls s))
             with 1 by lia.
           simpl. by rewrite (IH1 cur eq_refl).
      * rewrite app_nil_r in Hi |- *.
        apply lookup_app_Some in Hi as [Hi|[Hge Hi]].
        -- apply lookup_app_l_Some. by apply IH3.
        -- by apply list_lookup_singleton_Some in Hi as [_ ?].
  - intros s (IH1 & IH2 & IH3). unfold Hook.stopListening. simpl.
    destruct (Hook.recognitionRef s) as [cur|] eqn:Hcur;
      [|simpl; by rewrite Hcur].
    destruct (Hook.isListening s); [|simpl; by rewrite Hcur].
    simpl. rewrite Hcur. split_and!.
    + done.
    + intros r [Hin|Hin]%elem_of_app; [by apply IH2|].
      apply list_elem_of_singleton in Hin. injection Hin as ->.
      specialize (IH1 cur eq_refl). lia.
    + intros i r Hi. apply lookup_app_Some in Hi as [Hi|[Hge Hi]].
      * apply lookup_app_l_Some. by apply IH3.
      * by apply list_lookup_singleton_Some in Hi as [_ ?].
  - done.
  - intros cb s IH. unfold Hook.restartListening. by case_match.
  - intros r ev o p s _ (IH1 & IH2 & IH3) Ho _.
    destruct (HookFacts.handle_frame r ev (Hook.setPhase r p s))
      as (_ & _ & _ & _ & _ & _ & ->).
    simpl. rewrite length_alter. split_and!.
    + intros r' Hr'.
      destruct (hook_handle_recognitionRef r ev (Hook.setPhase r p s))
        as [Heq|Heq]; rewrite Heq in Hr'; [by apply IH1|done].
    + intros r' Hin.
      destruct (hook_handle_calls r ev (Hook.setPhase r p s)) as [Heq|Heq];
        rewrite Heq in Hin; simpl in Hin; [by apply IH2|].
      apply elem_of_app in Hin as [Hin|Hin]; [by apply IH2|].
      apply list_elem_of_singleton in Hin. injection Hin as ->.
      by eapply lookup_lt_Some.
    + intros i r' Hi.
      destruct (hook_handle_calls r ev (Hook.setPhase r p s)) as [Heq|Heq];
        rewrite Heq in Hi |- *; simpl in Hi |- *; [by apply IH3|].
      apply lookup_app_Some in Hi as [Hi|[Hge Hi]].
      * apply lookup_app_l_Some. by apply IH3.
      * by apply list_lookup_singleton_Some in Hi as [_ ?].
  - done.
  - intros i t text cb s (IH1 & IH2 & IH3) _ _ _. simpl. split_and!.
    + done.
    + intros r [Hin|Hin]%elem_of_app; [by apply IH2|].
      by apply list_elem_of_singleton in Hin.
    + intros j r Hj. apply lookup_app_Some in Hj as [Hj|[Hge Hj]].
      * apply lookup_app_l_Some. by apply IH3.
      * by apply list_lookup_singleton_Some in Hj as [_ ?].
Qed.

Lemma part_ref_newest s :
  Part000.reachable s →
  (∀ r, Part000.recognitionRef s = Some r → S r = length (Part000.heap s))
  ∧ (∀ r, CallStop r ∈ Part000.calls s → r < length (Part000.heap s))
  ∧ (∀ r, CallAbort r ∉ Part000.calls s).
Proof.
  revert s.
  apply (Part000Facts.part_reachable_inv (λ s,
    (∀ r, Part000.recognitionRef s = Some r → S r = length (Part000.heap s))
    ∧ (∀ r, CallStop r ∈ Part000.calls s → r < length (Part000.heap s))
    ∧ (∀ r, CallAbort r ∉ Part000.calls s))).
  - intros ctor. split_and!.
    + done.
    + intros r Hin. simpl in Hin. by apply elem_of_nil in Hin.
    + intros r Hin. simpl in Hin. by apply elem_of_nil in Hin.
  - intros s IH _. unfold Part000.effect. by case_match.
  - intros cb throws s (IH1 & IH2 & IH3) _ _ _. simpl. split_and!.
    + intros r [= <-]. rewrite length_app. simpl. lia.
    + intros r [Hin|Hin]%elem_of_app.
      * apply IH2 in Hin. rewrite length_app. lia.
      * by apply list_elem_of_singleton in Hin.
    + intros r [Hin|Hin]%elem_of_app; [by apply (IH3 r)|].
      by apply list_elem_of_singleton in Hin.
  - intros s (IH1 & IH2 & IH3). unfold Part000.stopListening.
    destruct (Part000.recognitionRef s) as [cur|] eqn:Hcur;
      [|by rewrite Hcur].
    destruct (Part000.isListening s); [|by rewrite Hcur].
    simpl. rewrite Hcur. split_and!.
    + done.
    + intros r [Hin|Hin]%elem_of_app; [by apply IH2|].
      apply list_elem_of_singleton in Hin. injection Hin as ->.
      specialize (IH1 cur eq_refl). lia.
    + intros r [Hin|Hin]%elem_of_app; [by apply (IH3 r)|].
      by apply list_elem_of_singleton in Hin.
  - done.
  - intros r ev o p s _ (IH1 & IH2 & IH3) Ho _.
    destruct (Part000Facts.part_handle_frame r ev (Part000.setPhase r p s))
      as (_ & _ & -> & _ & _ & ->).
    simpl. rewrite length_alter. split; [done|].
    destruct (part_handle_calls r ev (Part000.setPhase r p s))
      as [->|(cb & text & ->)]; simpl; [done|]. split.
    + intros r' [Hin|Hin]%elem_of_app;
        [|by apply list_elem_of_singleton in Hin].
      apply elem_of_app in Hin as [Hin|Hin]; [by apply IH2|].
      apply list_elem_of_singleton in Hin. injection Hin as ->.
      by eapply lookup_lt_Some.
    + intros r' [Hin|Hin]%elem_of_app;
        [|by apply list_elem_of_singleton in Hin].
      apply elem_of_app in Hin as [Hin|Hin]; [by apply (IH3 r')|].
      by apply list_elem_of_singleton in Hin.
Qed.

(** X3. On every run, the current-recognizer reference is either empty or
    the most recently created recognizer, which carries the hook's four
    handlers, and every [stop()] in the log was called on a recognizer the
    hook created.  Both revisions. *)
Theorem current_recognizer_is_newest
    (ctor : bool) (actsH : list Hook.Action) (sh : Hook.State)
    (actsP : list Part000.Action) (sp : Part000.State) :
  Hook.run actsH (Hook.init ctor) = Some sh →
  Part000.run actsP (Part000.init ctor) = Some sp →
  ((∀ r, Hook.recognitionRef sh = Some r →
      S r = length (Hook.heap sh)
      ∧ ∃ o, Hook.heap sh !! r = Some o ∧ wired r o)
   ∧ ∀ r, CallStop r ∈ Hook.calls sh → r < length (Hook.heap sh))
  ∧ ((∀ r, Part000.recognitionRef sp = Some r →
        S r = length (Part000.heap sp)
        ∧ ∃ o, Part000.heap sp !! r = Some o ∧ wired r o)
     ∧ ∀ r, CallStop r ∈ Part000.calls sp → r < length (Part000.heap sp)).
Proof.
  intros Hh Hp.
  apply hook_reachable_of_run in Hh. apply part_reachable_of_run in Hp.
  destruct (hook_ref_newest sh Hh) as (H1 & H2 & _).
  destruct (part_ref_newest sp Hp) as (P1 & P2 & _).
  split; split; try done.
  - intros r Hr. split; [by apply H1|].
    destruct (lookup_lt_is_Some_2 (Hook.heap sh) r) as [o Ho].
    { apply H1 in Hr. lia. }
    exists o. split; [done|]. by eapply HookFacts.reachable_wiredHeap.
  - intros r Hr. split; [by apply P1|].
    destruct (lookup_lt_is_Some_2 (Part000.heap sp) r) as [o Ho].
    { apply P1 in Hr. lia. }
    exists o. split; [done|].
    by eapply Part000Facts.part_reachable_wiredHeap.
Qed.

Lemma current_recognizer_is_newest_witness :
  ∃ sh sp,
    (Hook.run [Hook.Mount; Hook.StartListening (Some 7) false;
               Hook.Deliver 0 EvStart; Hook.StartListening None false;
               Hook.StopListening]
       (Hook.init true) = Some sh
     ∧ Part000.run [Part000.Mount; Part000.StartListening None false;
                    Part000.Deliver 0 EvStart; Part000.StopListening]
         (Part000.init true) = Some sp)
    ∧ Hook.recognitionRef sh = Some 1
    ∧ length (Hook.heap sh) = 2
    ∧ (∀ r, CallStop r ∈ Hook.calls sh → r < length (Hook.heap sh))
    ∧ (∀ r, CallStop r ∈ Part000.calls sp → r < length (Part000.heap sp)).
Proof.
  eexists. eexists. split; [split; by vm_compute|].
  split; [by vm_compute|]. split; [by vm_compute|].
  match goal with
  | |- (∀ r, _ ∈ Hook.calls ?sh → _) ∧ (∀ r', _ ∈ Part000.calls ?sp → _) =>
      pose proof (current_recognizer_is_newest true
        [Hook.Mount; Hook.StartListening (Some 7) false;
         Hook.Deliver 0 EvStart; Hook.StartListening None false;
         Hook.StopListening] sh
        [Part000.Mount; Part000.StartListening None false;
         Part000.Deliver 0 EvStart; Part000.StopListening] sp
        ltac:(by vm_compute) ltac:(by vm_compute))
        as ((_ & H1) & (_ & H2))
  end.
  split; [exact H1|exact H2].
Defined.

(** X4. In the voice-mode revision every [abort()] in the log was called
    on the recognizer that was then the newest one and is followed at once
    by the [start()] of its successor; the plain revision never calls
    [abort()]. *)
Theorem abort_precedes_next_start
    (ctor : bool) (actsH : list Hook.Action) (sh : Hook.State)
    (actsP : list Part000.Action) (sp : Part000.State) :
  Hook.run actsH (Hook.init ctor) = Some sh →
  Part000.run actsP (Part000.init ctor) = Some sp →
  (∀ i r, Hook.calls sh !! i = Some (CallAbort r) →
     Hook.calls sh !! S i = Some (CallStart (S r)))
  ∧ (∀ r, CallAbort r ∉ Part000.calls sp).
Proof.
  intros Hh Hp.
  apply hook_reachable_of_run in Hh. apply part_reachable_of_run in Hp.
  destruct (hook_ref_newest sh Hh) as (_ & _ & H3).
  destruct (part_ref_newest sp Hp) as (_ & _ & P3).
  done.
Qed.

Lemma abort_precedes_next_start_witness :
  ∃ sh sp,
    (Hook.run [Hook.Mount; Hook.StartListening (Some 7) false;
               Hook.Deliver 0 EvStart; Hook.StartListening (Some 7) false;
               Hook.Deliver 0 (EvError (lit "aborted")); Hook.Deliver 0 EvEnd]
       (Hook.init true) = Some sh
     ∧ Part000.run [Part000.Mount; Part000.StartListening None false;
                    Part000.StartListening None false]
         (Part000.init true) = Some sp)
    ∧ Hook.calls sh = [CallStart 0; CallAbort 0; CallStart 1]
    ∧ Part000.calls sp = [CallStart 0; CallStart 1]
    ∧ (∀ i r, Hook.calls sh !! i = Some (CallAbort r) →
         Hook.calls sh !! S i = Some (CallStart (S r))).
Proof.
  eexists. eexists. split; [split; by vm_compute|].
  split; [by vm_compute|]. split; [by vm_compute|].
  match goal with
  | |- ∀ i r, Hook.calls ?sh !! i = _ → _ =>
      exact (proj1 (abort_precedes_next_start true
        [Hook.Mount; Hook.StartListening (Some 7) false;
         Hook.Deliver 0 EvStart; Hook.StartListening (Some 7) false;
         Hook.Deliver 0 (EvError (lit "aborted")); Hook.Deliver 0 EvEnd] sh
        [Part000.Mount; Part000.StartListening None false;
         Part000.StartListening None false]
        _ ltac:(by vm_compute) ltac:(by vm_compute)))
  end.
Defined.

(** ** Recognizer settings *)

Lemma configured_withPhase p o : configured o → configured (withPhase p o).
Proof. by intros (?&?&?). Qed.

Lemma hook_configured s :
  Hook.reachable s → ∀ r o, Hook.heap s !! r = Some o → configured o.
Proof.
  revert s.
  apply (HookFacts.reachable_inv
    (λ s, ∀ r o, Hook.heap s !! r = Some o → configured o)).
  - intros ctor r o Hl. simpl in Hl. by rewrite lookup_nil in Hl.
  - intros s IH _. unfold Hook.effect. by case_match.
  - intros cb throws s IH _ _ r o. simpl. intros Hl.
    apply lookup_app_Some in Hl as [Hl|[_ Hl]]; [by eapply IH|].
    apply list_lookup_singleton_Some in Hl as [_ <-]. by repeat split.
  - intros s IH. unfold Hook.stopListening. by repeat case_match.
  - done.
  - intros cb s IH. unfold Hook.restartListening. by case_match.
  - intros r ev o p s _ IH _ _ r' o'.
    destruct (HookFacts.handle_frame r ev (Hook.setPhase r p s))
      as (_ & _ & _ & _ & _ & _ & ->).
    simpl. rewrite list_lookup_alter. case_decide as Hr; [|apply IH].
    subst r'. destruct (Hook.heap s !! r) as [o1|] eqn:Ho1; simpl; [|done].
    intros [= <-]. by eapply configured_withPhase, IH.
  - done.
  - done.
Qed.

Lemma part_configured s :
  Part000.reachable s → ∀ r o, Part000.heap s !! r = Some o → configured o.
Proof.
  revert s.
  apply (Part000Facts.part_reachable_inv
    (λ s, ∀ r o, Part000.heap s !! r = Some o → configured o)).
  - intros ctor r o Hl. simpl in Hl. by rewrite lookup_nil in Hl.
  - intros s IH _. unfold Part000.effect. by case_match.
  - intros cb throws s IH _ _ _ r o. simpl. intros Hl.
    apply lookup_app_Some in Hl as [Hl|[_ Hl]]; [by eapply IH|].
    apply list_lookup_singleton_Some in Hl as [_ <-]. by repeat split.
  - intros s IH. unfold Part000.stopListening. by repeat case_match.
  - done.
  - intros r ev o p s _ IH _ _ r' o'.
    destruct (Part000Facts.part_handle_frame r ev (Part000.setPhase r p s))
      as (_ & _ & _ & _ & _ & ->).
    simpl. rewrite list_lookup_alter. case_decide as Hr; [|apply IH].
    subst r'. destruct (Part000.heap s !! r) as [o1|] eqn:Ho1; simpl; [|done].
    intros [= <-]. by eapply configured_withPhase, IH.
Qed.

(** X5. Every recognizer the hook has created, at any later point of any
    run, is set to continuous recognition with interim results in the
    language [tr-TR].  Both revisions. *)
Theorem recognizers_are_configured
    (ctor : bool) (actsH : list Hook.Action) (sh : Hook.State)
    (actsP : list Part000.Action) (sp : Part000.State) :
  Hook.run actsH (Hook.init ctor) = Some sh →
  Part000.run actsP (Part000.init ctor) = Some sp →
  (∀ r o, Hook.heap sh !! r = Some o →
     Rec.continuous o = true ∧ Rec.interimResults o = true
     ∧ Rec.lang o = lit "tr-TR")
  ∧ (∀ r o, Part000.heap sp !! r = Some o →
       Rec.continuous o = true ∧ Rec.interimResults o = true
       ∧ Rec.lang o = lit "tr-TR").
Proof.
  intros Hh Hp.
  apply hook_reachable_of_run in Hh. apply part_reachable_of_run in Hp.
  split; intros r o Ho.
  - by apply (hook_configured sh Hh r o).
  - by apply (part_configured sp Hp r o).
Qed.

Lemma recognizers_are_configured_witness :
  ∃ sh sp,
    (Hook.run [Hook.Mount; Hook.StartListening (Some 7) true;
               Hook.StartListening None false; Hook.Deliver 1 EvStart;
               Hook.Deliver 1 EvEnd]
       (Hook.init true) = Some sh
     ∧ Part000.run [Part000.Mount; Part000.StartListening None false;
                    Part000.Deliver 0 (EvError (lit "no-speech"))]
         (Part000.init true) = Some sp)
    ∧ length (Hook.heap sh) = 2
    ∧ (∀ r o, Hook.heap sh !! r = Some o →
         Rec.continuous o = true ∧ Rec.interimResults o = true
         ∧ Rec.lang o = lit "tr-TR").
Proof.
  eexists. eexists. split; [split; by vm_compute|]. split; [by vm_compute|].
  match goal with
  | |- ∀ r o, Hook.heap ?sh !! r = _ → _ =>
      exact (proj1 (recognizers_are_configured true
        [Hook.Mount; Hook.StartListening (Some 7) true;
         Hook.StartListening None false; Hook.Deliver 1 EvStart;
         Hook.Deliver 1 EvEnd] sh
        [Part000.Mount; Part000.StartListening None false;
         Part000.Deliver 0 (EvError (lit "no-speech"))]
        _ ltac:(by vm_compute) ltac:(by vm_compute)))
  end.
Defined.

(** ** Timers *)

(** X6. Every pending timer carries the delay of its kind: 100 ms for the
    callback after a final result, 1000 ms for the retry after an error,
    500 ms for [restartListening]. *)
Theorem timers_have_fixed_delays
    (ctor : bool) (acts : list Hook.Action) (s : Hook.State) :
  Hook.run acts (Hook.init ctor) = Some s →
  ∀ t, t ∈ Hook.timers s → Hook.delay t = delayOf (Hook.body t).
Proof.
  intros Hrun. apply hook_reachable_of_run in Hrun. revert s Hrun.
  apply (HookFacts.reachable_inv
    (λ s, ∀ t, t ∈ Hook.timers s → Hook.delay t = delayOf (Hook.body t))).
  - intros ctor' t Hin. simpl in Hin. by apply elem_of_nil in Hin.
  - intros s IH _. unfold Hook.effect. by case_match.
  - done.
  - intros s IH. unfold Hook.stopListening. by repeat case_match.
  - done.
  - intros cb s IH. unfold Hook.restartListening. case_match; [done|].
    simpl. intros t [Hin|Hin]%elem_of_app; [by apply IH|].
    by apply list_elem_of_singleton in Hin as ->.
  - intros r ev o p s _ IH _ _. destruct ev; cbn [Hook.handle].
    + done.
    + rewrite HookFacts.onresult_unfold. cbv zeta. case_match; [|done].
      simpl. intros t [Hin|Hin]%elem_of_app; [by apply IH|].
      by apply list_elem_of_singleton in Hin as ->.
    + unfold Hook.onend. by case_match.
    + rewrite HookFacts.onerror_unfold. cbv zeta. case_match; [|done].
      simpl. intros t [Hin|Hin]%elem_of_app; [by apply IH|].
      by apply list_elem_of_singleton in Hin as ->.
  - intros i t s IH _ t' Hin. simpl in Hin.
    by eapply IH, list_elem_of_delete_inv.
  - intros i t text cb s IH _ _ _ t' Hin. simpl in Hin.
    by eapply IH, list_elem_of_delete_inv.
Qed.

Lemma timers_have_fixed_delays_witness :
  ∃ s,
    Hook.run [Hook.Mount; Hook.StartListening (Some 7) false;
              Hook.Deliver 0 EvStart; Hook.Deliver 0 (EvResult firstEvent);
              Hook.RestartListening 7;
              Hook.Deliver 0 (EvError (lit "network"))]
      (Hook.init true) = Some s
    ∧ length (Hook.timers s) = 3
    ∧ ∀ t, t ∈ Hook.timers s → Hook.delay t = delayOf (Hook.body t).
Proof.
  eexists. split; [by vm_compute|]. split; [by vm_compute|].
  match goal with
  | |- ∀ t, t ∈ Hook.timers ?s → _ =>
      exact (timers_have_fixed_delays true
        [Hook.Mount; Hook.StartListening (Some 7) false;
         Hook.Deliver 0 EvStart; Hook.Deliver 0 (EvResult firstEvent);
         Hook.RestartListening 7;
         Hook.Deliver 0 (EvError (lit "network"))] s ltac:(by vm_compute))
  end.
Defined.

(** ** After [stopListening] *)

Lemma hook_invoke_quiet c ev s :
  Hook.shouldRestartRef (Hook.invoke c ev s) = Hook.shouldRestartRef s
  ∧ Hook.heap (Hook.invoke c ev s) = Hook.heap s
  ∧ startedIds (Hook.calls (Hook.invoke c ev s)) = startedIds (Hook.calls s).
Proof.
  destruct (hook_invoke_handle c ev s) as [->|(r & ev' & ->)]; [done|].
  destruct (HookFacts.handle_frame r ev' s) as (_ & _ & _ & -> & _ & _ & ->).
  split_and!; [done..|].
  destruct (hook_handle_calls r ev' s) as [->| ->]; [done|].
  by rewrite startedIds_snoc, app_nil_r.
Qed.

Lemma hook_step_quiet a s s' :
  userStart a = false → Hook.shouldRestartRef s = false →
  Hook.step a s = Some s' →
  Hook.shouldRestartRef s' = false
  ∧ length (Hook.heap s') = length (Hook.heap s)
  ∧ startedIds (Hook.calls s') = startedIds (Hook.calls s).
Proof.
  intros Ha Hq Hstep. destruct a; simpl in Hstep; try done.
  - destruct (Hook.mounted s); [done|]. injection Hstep as <-.
    unfold Hook.effect. by case_match.
  - injection Hstep as <-. unfold Hook.stopListening.
    repeat case_match; simpl; split_and!; try done.
    by rewrite startedIds_snoc, app_nil_r.
  - by injection Hstep as <-.
  - injection Hstep as <-. unfold Hook.restartListening. by rewrite Hq.
  - unfold Hook.deliver in Hstep.
    destruct (Hook.heap s !! r) as [o|]; simpl in Hstep; [|done].
    destruct (nextPhase ev (Rec.phase o)) as [p|]; simpl in Hstep; [|done].
    injection Hstep as <-.
    assert (Hlen : length (Hook.heap (Hook.setPhase r p s))
                   = length (Hook.heap s)).
    { simpl. by rewrite length_alter. }
    destruct (slot ev o) as [c|]; [|done].
    destruct (hook_invoke_quiet c ev (Hook.setPhase r p s))
      as (-> & -> & ->).
    done.
  - destruct (Hook.timers s !! i) as [t|]; simpl in Hstep; [|done].
    injection Hstep as <-. destruct (Hook.body t); simpl.
    + case_match; simpl; split_and!; try done.
      by rewrite startedIds_snoc, app_nil_r.
    + by rewrite Hq.
    + by rewrite Hq.
Qed.

Lemma hook_run_quiet acts s s' :
  forallb (λ a, negb (userStart a)) acts = true →
  Hook.shouldRestartRef s = false →
  Hook.run acts s = Some s' →
  Hook.shouldRestartRef s' = false
  ∧ length (Hook.heap s') = length (Hook.heap s)
  ∧ startedIds (Hook.calls s') = startedIds (Hook.calls s).
Proof.
  revert s. induction acts as [|a acts IH]; intros s Hall Hq Hrun;
    simpl in Hall, Hrun.
  - by injection Hrun as <-.
  - apply andb_prop in Hall as [Ha Hall]. apply negb_true_iff in Ha.
    destruct (Hook.step a s) as [s1|] eqn:Hs; simpl in Hrun; [|done].
    destruct (hook_step_quiet a s s1 Ha Hq Hs) as (Hq1 & <- & <-).
    by apply IH.
Qed.

(** X7. Once [stopListening] has run, and until the UI calls
    [startListening] again, the hook starts nothing by itself: whatever
    events the platform delivers and whichever pending retry or restart
    timers expire, no recognizer is created, no [start()] is called and
    restart stays disabled.  A callback timer that was already pending
    still delivers its text to the stored callback. *)
Theorem stopped_hook_never_restarts
    (s0 : Hook.State) (acts : list Hook.Action) (s' : Hook.State) :
  forallb (λ a, negb (userStart a)) acts = true →
  Hook.run acts (Hook.stopListening s0) = Some s' →
  (Hook.shouldRestartRef s' = false
   ∧ length (Hook.heap s') = length (Hook.heap s0)
   ∧ startedIds (Hook.calls s') = startedIds (Hook.calls s0))
  ∧ (∀ cb text throws,
       Hook.onSpeechEndRef s0 = Some cb →
       Hook.calls (Hook.fire (Hook.SpeechEndTimer text) throws
                     (Hook.stopListening s0))
       = Hook.calls (Hook.stopListening s0) ++ [CallOnSpeechEnd cb text]).
Proof.
  intros Hall Hrun. split.
  - assert (Hstop : Hook.shouldRestartRef (Hook.stopListening s0) = false
        ∧ Hook.heap (Hook.stopListening s0) = Hook.heap s0
        ∧ startedIds (Hook.calls (Hook.stopListening s0))
          = startedIds (Hook.calls s0)).
    { unfold Hook.stopListening. repeat case_match; simpl; split_and!;
        try done.
      by rewrite startedIds_snoc, app_nil_r. }
    destruct Hstop as (Hq & Hh & Hc).
    destruct (hook_run_quiet acts _ s' Hall Hq Hrun) as (? & ? & ?).
    split_and!; [done|congruence|congruence].
  - intros cb text throws Hcb. simpl.
    assert (Hcb' : Hook.onSpeechEndRef (Hook.stopListening s0) = Some cb).
    { unfold Hook.stopListening. by repeat case_match. }
    by rewrite Hcb'.
Qed.

Lemma stopped_hook_never_restarts_witness :
  ∃ s0 s',
    Hook.run [Hook.Mount; Hook.StartListening (Some 7) false;
              Hook.Deliver 0 EvStart; Hook.Deliver 0 (EvResult firstEvent);
              Hook.RestartListening 7;
              Hook.Deliver 0 (EvError (lit "network"))]
      (Hook.init true) = Some s0
    ∧ length (Hook.timers s0) = 3
    ∧ Hook.run [Hook.Fire 0 false; Hook.Fire 0 false; Hook.Fire 0 false;
                Hook.Deliver 0 EvEnd; Hook.RestartListening 7]
        (Hook.stopListening s0) = Some s'
    ∧ Hook.timers s' = []
    ∧ length (Hook.heap s') = length (Hook.heap s0)
    ∧ startedIds (Hook.calls s') = startedIds (Hook.calls s0).
Proof.
  eexists. eexists. split; [by vm_compute|]. split; [by vm_compute|].
  split; [by vm_compute|]. split; [by vm_compute|].
  match goal with
  | |- length (Hook.heap ?s') = length (Hook.heap ?s0) ∧ _ =>
      pose proof (stopped_hook_never_restarts s0
        [Hook.Fire 0 false; Hook.Fire 0 false; Hook.Fire 0 false;
         Hook.Deliver 0 EvEnd; Hook.RestartListening 7] s'
        eq_refl ltac:(by vm_compute)) as ((_ & H1 & H2) & _)
  end.
  split; [exact H1|exact H2].
Defined.

(** ** [restartListening] *)

(** X8. [restartListening] does nothing outside voice mode: on every state
    the hook reaches with no stored callback it returns the state it was
    given, and so it does right after [stopListening], whatever the state. *)
Theorem restartListening_noop_outside_voice_mode
    (ctor : bool) (acts : list Hook.Action) (s : Hook.State)
    (onSpeechEnd : Callback) :
  Hook.run acts (Hook.init ctor) = Some s →
  Hook.onSpeechEndRef s = None →
  Hook.restartListening onSpeechEnd s = s
  ∧ ∀ s1, Hook.restartListening onSpeechEnd (Hook.stopListening s1)
          = Hook.stopListening s1.
Proof.
  intros Hrun Hcb. apply hook_reachable_of_run in Hrun. split.
  - destruct (HookFacts.reachable_voice s Hrun) as [_ Hsome].
    unfold Hook.restartListening.
    destruct (Hook.shouldRestartRef s); [|done].
    destruct (Hsome eq_refl) as [cb Hcb']. congruence.
  - intros s1. unfold Hook.restartListening.
    assert (Hq : Hook.shouldRestartRef (Hook.stopListening s1) = false).
    { unfold Hook.stopListening. by repeat case_match. }
    by rewrite Hq.
Qed.

Lemma restartListening_noop_outside_voice_mode_witness :
  ∃ s,
    (Hook.run [Hook.Mount; Hook.StartListening None false;
               Hook.Deliver 0 EvStart]
       (Hook.init true) = Some s
     ∧ Hook.onSpeechEndRef s = None)
    ∧ Hook.isListening s = true
    ∧ Hook.restartListening 7 s = s.
Proof.
  eexists. split; [split; by vm_compute|]. split; [done|].
  match goal with
  | |- Hook.restartListening _ ?s = _ =>
      exact (proj1 (restartListening_noop_outside_voice_mode true
        [Hook.Mount; Hook.StartListening None false; Hook.Deliver 0 EvStart]
        s 7 ltac:(by vm_compute) eq_refl))
  end.
Defined.

Lemma hook_timer_round_trip b ms s :
  Hook.timers (Hook.setTimeout b ms s) !! length (Hook.timers s)
  = Some {| Hook.body := b; Hook.delay := ms |}
  ∧ Hook.setTimers
      (delete (length (Hook.timers s)) (Hook.timers (Hook.setTimeout b ms s)))
      (Hook.setTimeout b ms s) = s.
Proof.
  destruct s as [l t sup cur cb ft vm sr m ctor h ts cs]. simpl. split.
  - rewrite lookup_app_r by lia. by rewrite Nat.sub_diag.
  - unfold Hook.setTimers, Hook.setTimeout. simpl.
    by rewrite delete_middle, app_nil_r.
Qed.

Lemma hook_fire_scheduled b ms throws s :
  Hook.step (Hook.Fire (length (Hook.timers s)) throws)
    (Hook.setTimeout b ms s)
  = Some (Hook.fire b throws s).
Proof.
  destruct (hook_timer_round_trip b ms s) as [Hl Hd].
  unfold Hook.step. rewrite Hl. cbn [mbind option_bind Hook.body].
  by rewrite Hd.
Qed.

Lemma hook_stop_scheduled b ms s :
  Hook.stopListening (Hook.setTimeout b ms s)
  = Hook.setTimeout b ms (Hook.stopListening s).
Proof.
  destruct s as [l t sup cur cb ft vm sr m ctor h ts cs].
  unfold Hook.stopListening. by destruct cur as [cur|], l.
Qed.

Lemma hook_run_steps2 a b s s1 s2 :
  Hook.step a s = Some s1 → Hook.step b s1 = Some s2 →
  Hook.run [a; b] s = Some s2.
Proof. intros H1 H2. simpl. rewrite H1. simpl. by rewrite H2. Qed.

Lemma hook_run_steps3 a b c s s1 s2 s3 :
  Hook.step a s = Some s1 → Hook.step b s1 = Some s2 →
  Hook.step c s2 = Some s3 →
  Hook.run [a; b; c] s = Some s3.
Proof.
  intros H1 H2 H3. simpl. rewrite H1. simpl. rewrite H2. simpl.
  by rewrite H3.
Qed.

(** X9. In voice mode with restart enabled, [restartListening] schedules
    one timer of 500 ms; when it expires the hook is exactly where a direct
    [startListening] with the given callback would have put it.  If
    [stopListening] runs during the delay, the expiring timer starts
    nothing: the hook is where [stopListening] alone would have put it. *)
Theorem restartListening_starts_after_delay
    (s : Hook.State) (onSpeechEnd : Callback) (throws : bool) :
  Hook.shouldRestartRef s = true →
  Hook.timers (Hook.restartListening onSpeechEnd s)
  = Hook.timers s
    ++ [{| Hook.body := Hook.RestartTimer onSpeechEnd; Hook.delay := 500 |}]
  ∧ Hook.run [Hook.RestartListening onSpeechEnd;
              Hook.Fire (length (Hook.timers s)) throws] s
    = Some (Hook.startListening (Some onSpeechEnd) throws s)
  ∧ Hook.run [Hook.RestartListening onSpeechEnd; Hook.StopListening;
              Hook.Fire (length (Hook.timers s)) throws] s
    = Some (Hook.stopListening s).
Proof.
  intros Hre.
  assert (Hr : Hook.restartListening onSpeechEnd s
               = Hook.setTimeout (Hook.RestartTimer onSpeechEnd) 500 s).
  { unfold Hook.restartListening. by rewrite Hre. }
  assert (Htimers : ∀ s1, Hook.timers (Hook.stopListening s1)
                          = Hook.timers s1).
  { intros s1. unfold Hook.stopListening. by repeat case_match. }
  assert (Hquiet : ∀ s1, Hook.shouldRestartRef (Hook.stopListening s1)
                         = false).
  { intros s1. unfold Hook.stopListening. by repeat case_match. }
  split_and!.
  - by rewrite Hr.
  - eapply hook_run_steps2; [reflexivity|].
    rewrite Hr, hook_fire_scheduled. cbn [Hook.fire]. by rewrite Hre.
  - eapply hook_run_steps3; [reflexivity|reflexivity|].
    rewrite Hr, hook_stop_scheduled, <-(Htimers s).
    rewrite hook_fire_scheduled. cbn [Hook.fire]. by rewrite Hquiet.
Qed.

Lemma restartListening_starts_after_delay_witness :
  ∃ s,
    Hook.run [Hook.Mount; Hook.StartListening (Some 7) false;
              Hook.Deliver 0 EvStart; Hook.Deliver 0 (EvResult firstEvent);
              Hook.Deliver 0 EvEnd]
      (Hook.init true) = Some s
    ∧ Hook.shouldRestartRef s = true
    ∧ Hook.run [Hook.RestartListening 9;
                Hook.Fire (length (Hook.timers s)) false] s
      = Some (Hook.startListening (Some 9) false s).
Proof.
  eexists. split; [by vm_compute|]. split; [done|].
  match goal with
  | |- Hook.run _ ?s = _ =>
      exact (proj1 (proj2 (restartListening_starts_after_delay s 9 false
                             eq_refl)))
  end.
Defined.

(** ** Manual mode *)

Lemma hook_handle_manual r ev s :
  Hook.onSpeechEndRef s = None → Hook.isVoiceModeRef s = false →
  Hook.timers (Hook.handle r ev s) = Hook.timers s
  ∧ Hook.calls (Hook.handle r ev s) = Hook.calls s.
Proof.
  intros Hcb Hv. destruct ev; cbn [Hook.handle].
  - done.
  - rewrite HookFacts.onresult_unfold. cbv zeta. rewrite Hcb.
    rewrite bool_decide_eq_false_2 by (by intros [? ?]).
    by rewrite andb_false_r.
  - unfold Hook.onend. by case_match.
  - rewrite HookFacts.onerror_unfold. cbv zeta. by rewrite Hv.
Qed.

Lemma hook_step_manual a s s' :
  voiceStart a = false →
  Hook.onSpeechEndRef s = None → Hook.isVoiceModeRef s = false →
  Hook.shouldRestartRef s = false → Hook.timers s = [] →
  (∀ cb text, CallOnSpeechEnd cb text ∉ Hook.calls s) →
  Hook.step a s = Some s' →
  Hook.onSpeechEndRef s' = None ∧ Hook.isVoiceModeRef s' = false
  ∧ Hook.shouldRestartRef s' = false ∧ Hook.timers s' = []
  ∧ (∀ cb text, CallOnSpeechEnd cb text ∉ Hook.calls s').
Proof.
  intros Ha Hcb Hv Hq Ht Hc Hstep. destruct a; simpl in Hstep.
  - destruct (Hook.mounted s); [done|]. injection Hstep as <-.
    unfold Hook.effect. by case_match.
  - destruct onSpeechEnd as [cb|]; [done|]. injection Hstep as <-.
    rewrite HookFacts.startListening_unfold. case_match; [|done].
    simpl. split_and!; try done.
    intros cb text [Hin|Hin]%elem_of_app;
      [|by apply list_elem_of_singleton in Hin].
    apply elem_of_app in Hin as [Hin|Hin]; [by apply (Hc cb text)|].
    destruct (Hook.recognitionRef s).
    + by apply list_elem_of_singleton in Hin.
    + by apply elem_of_nil in Hin.
  - injection Hstep as <-. unfold Hook.stopListening.
    repeat case_match; simpl; split_and!; try done.
    intros cb text [Hin|Hin]%elem_of_app; [by apply (Hc cb text)|].
    by apply list_elem_of_singleton in Hin.
  - by injection Hstep as <-.
  - injection Hstep as <-. unfold Hook.restartListening. by rewrite Hq.
  - unfold Hook.deliver in Hstep.
    destruct (Hook.heap s !! r) as [o|]; simpl in Hstep; [|done].
    destruct (nextPhase ev (Rec.phase o)) as [p|]; simpl in Hstep; [|done].
    injection Hstep as <-.
    destruct (slot ev o) as [c|]; [|done].
    destruct (hook_invoke_handle c ev (Hook.setPhase r p s))
      as [->|(r' & ev' & ->)]; [done|].
    destruct (HookFacts.handle_frame r' ev' (Hook.setPhase r p s))
      as (_ & -> & -> & -> & _).
    destruct (hook_handle_manual r' ev' (Hook.setPhase r p s) Hcb Hv)
      as [-> ->].
    done.
  - by rewrite Ht, lookup_nil in Hstep.
Qed.

(** X10. As long as the UI never passes a callback to [startListening],
    the hook schedules no timer at all and never calls a callback, whatever
    events the platform delivers: manual mode has no retry, no restart and
    no deferred work. *)
Theorem manual_mode_schedules_nothing
    (ctor : bool) (acts : list Hook.Action) (s : Hook.State) :
  forallb (λ a, negb (voiceStart a)) acts = true →
  Hook.run acts (Hook.init ctor) = Some s →
  Hook.timers s = []
  ∧ Hook.onSpeechEndRef s = None
  ∧ Hook.shouldRestartRef s = false
  ∧ ∀ cb text, CallOnSpeechEnd cb text ∉ Hook.calls s.
Proof.
  intros Hall Hrun.
  assert (Hgen : ∀ acts s0 s1,
    forallb (λ a, negb (voiceStart a)) acts = true →
    Hook.onSpeechEndRef s0 = None → Hook.isVoiceModeRef s0 = false →
    Hook.shouldRestartRef s0 = false → Hook.timers s0 = [] →
    (∀ cb text, CallOnSpeechEnd cb text ∉ Hook.calls s0) →
    Hook.run acts s0 = Some s1 →
    Hook.onSpeechEndRef s1 = None ∧ Hook.isVoiceModeRef s1 = false
    ∧ Hook.shouldRestartRef s1 = false ∧ Hook.timers s1 = []
    ∧ (∀ cb text, CallOnSpeechEnd cb text ∉ Hook.calls s1)).
  { clear. induction acts as [|a acts IH];
      intros s0 s1 Hall Hcb Hv Hq Ht Hc Hrun; simpl in Hall, Hrun.
    - by injection Hrun as <-.
    - apply andb_prop in Hall as [Ha Hall]. apply negb_true_iff in Ha.
      destruct (Hook.step a s0) as [s2|] eqn:Hs; simpl in Hrun; [|done].
      destruct (hook_step_manual a s0 s2 Ha Hcb Hv Hq Ht Hc Hs)
        as (? & ? & ? & ? & ?).
      by eapply (IH s2 s1). }
  destruct (Hgen acts (Hook.init ctor) s Hall) as (? & ? & ? & ? & ?);
    try done.
  intros cb text Hin. simpl in Hin. by apply elem_of_nil in Hin.
Qed.

Lemma manual_mode_schedules_nothing_witness :
  ∃ s,
    Hook.run [Hook.Mount; Hook.StartListening None false;
              Hook.Deliver 0 EvStart; Hook.Deliver 0 (EvResult firstEvent);
              Hook.Deliver 0 (EvError (lit "network")); Hook.Deliver 0 EvEnd;
              Hook.RestartListening 7; Hook.StartListening None false]
      (Hook.init true) = Some s
    ∧ Hook.calls s = [CallStart 0; CallStart 1]
    ∧ Hook.timers s = [].
Proof.
  eexists. split; [by vm_compute|]. split; [by vm_compute|].
  match goal with
  | |- Hook.timers ?s = _ =>
      exact (proj1 (manual_mode_schedules_nothing true
        [Hook.Mount; Hook.StartListening None false;
         Hook.Deliver 0 EvStart; Hook.Deliver 0 (EvResult firstEvent);
         Hook.Deliver 0 (EvError (lit "network")); Hook.Deliver 0 EvEnd;
         Hook.RestartListening 7; Hook.StartListening None false]
        s eq_refl ltac:(by vm_compute)))
  end.
Defined.

(** ** After the end of a session *)

(** X11. After the end event or an error event of any recognizer, also of
    one older than the current one, the hook holds no current recognizer:
    a following [stopListening] calls no [stop()], and a following
    [startListening] calls no [abort()], only [start()] on the recognizer
    it creates. *)
Theorem no_current_recognizer_after_end
    (ctor : bool) (acts : list Hook.Action) (s : Hook.State)
    (r : RecId) (ev : Event) (s' : Hook.State) :
  Hook.run acts (Hook.init ctor) = Some s →
  (ev = EvEnd ∨ ∃ error, ev = EvError error) →
  Hook.deliver r ev s = Some s' →
  Hook.recognitionRef s' = None
  ∧ Hook.calls (Hook.stopListening s') = Hook.calls s'
  ∧ ∀ cb throws,
      Hook.isSupported s' = true → Hook.speechRecognitionCtor s' = true →
      Hook.calls (Hook.startListening cb throws s')
      = Hook.calls s' ++ [CallStart (length (Hook.heap s'))].
Proof.
  intros Hrun Hev Hd. apply hook_reachable_of_run in Hrun.
  apply HookFacts.deliver_wired in Hd as (o & p & _ & _ & ->);
    [|by apply HookFacts.reachable_wiredHeap].
  assert (Href : Hook.recognitionRef (Hook.handle r ev (Hook.setPhase r p s))
                 = None).
  { destruct Hev as [->|[error ->]]; cbn [Hook.handle].
    - unfold Hook.onend. by case_match.
    - rewrite HookFacts.onerror_unfold. cbv zeta. by case_match. }
  split_and!.
  - done.
  - unfold Hook.stopListening. simpl. by rewrite Href.
  - intros cb throws Hsup Hctor.
    rewrite HookFacts.startListening_unfold, Hsup, Hctor. simpl.
    by rewrite Href, app_nil_r.
Qed.

Lemma no_current_recognizer_after_end_witness :
  ∃ s s',
    (Hook.run [Hook.Mount; Hook.StartListening None false;
               Hook.Deliver 0 EvStart; Hook.StartListening None false;
               Hook.Deliver 1 EvStart]
       (Hook.init true) = Some s
     ∧ (EvEnd = EvEnd ∨ ∃ error, EvEnd = EvError error)
     ∧ Hook.deliver 0 EvEnd s = Some s')
    ∧ Hook.recognitionRef s = Some 1
    ∧ Hook.recognitionRef s' = None
    ∧ Hook.calls (Hook.stopListening s') = Hook.calls s'.
Proof.
  eexists. eexists. split; [split_and!; [by vm_compute|by left|by vm_compute]|].
  split; [by vm_compute|].
  match goal with
  | |- Hook.recognitionRef ?s' = None ∧ _ =>
      pose proof (no_current_recognizer_after_end true
        [Hook.Mount; Hook.StartListening None false;
         Hook.Deliver 0 EvStart; Hook.StartListening None false;
         Hook.Deliver 1 EvStart] _ 0 EvEnd s'
        ltac:(by vm_compute) (or_introl eq_refl) ltac:(by vm_compute))
        as (H1 & H2 & _)
  end.
  split; [exact H1|exact H2].
Defined.

(** ** [resetTranscript] *)

(** X12. [resetTranscript] empties the transcript and the accumulated
    finalized text and touches nothing else, so a running session goes on:
    the next result event shows only its own text, and an end of session
    with no further finalized text leaves the transcript empty.  Resetting
    twice is resetting once.  Both revisions. *)
Theorem resetTranscript_restarts_accumulation
    (r : RecId) (event : SpeechRecognitionEvent)
    (sh : Hook.State) (sp : Part000.State) :
  (Hook.transcript (Hook.onresult r event (Hook.resetTranscript sh))
   = finalText (fresh event) ++ interimText (fresh event)
   ∧ Hook.finalTranscriptRef (Hook.onresult r event (Hook.resetTranscript sh))
     = finalText (fresh event)
   ∧ Hook.transcript (Hook.onend (Hook.resetTranscript sh)) = []
   ∧ Hook.resetTranscript (Hook.resetTranscript sh) = Hook.resetTranscript sh
   ∧ Hook.isListening (Hook.resetTranscript sh) = Hook.isListening sh
   ∧ Hook.recognitionRef (Hook.resetTranscript sh) = Hook.recognitionRef sh
   ∧ Hook.heap (Hook.resetTranscript sh) = Hook.heap sh
   ∧ Hook.timers (Hook.resetTranscript sh) = Hook.timers sh
   ∧ Hook.calls (Hook.resetTranscript sh) = Hook.calls sh)
  ∧ (Part000.transcript
       (Part000.onresult r event (Part000.resetTranscript sp))
     = finalText (fresh event) ++ interimText (fresh event)
     ∧ Part000.finalTranscriptRef
         (Part000.onresult r event (Part000.resetTranscript sp))
       = finalText (fresh event)
     ∧ Part000.transcript (Part000.onend (Part000.resetTranscript sp)) = []
     ∧ Part000.resetTranscript (Part000.resetTranscript sp)
       = Part000.resetTranscript sp
     ∧ Part000.isListening (Part000.resetTranscript sp)
       = Part000.isListening sp
     ∧ Part000.recognitionRef (Part000.resetTranscript sp)
       = Part000.recognitionRef sp
     ∧ Part000.heap (Part000.resetTranscript sp) = Part000.heap sp
     ∧ Part000.calls (Part000.resetTranscript sp) = Part000.calls sp).
Proof.
  split; split_and!; try done.
  - destruct (hook_onresult_transcript r event (Hook.resetTranscript sh))
      as [H1 H2]. by rewrite H2, H1.
  - by destruct (hook_onresult_transcript r event (Hook.resetTranscript sh))
      as [-> _].
  - unfold Hook.onend. simpl. by rewrite andb_false_r.
  - destruct (part_onresult_transcript r event (Part000.resetTranscript sp))
      as [H1 H2]. by rewrite H2, H1.
  - by destruct (part_onresult_transcript r event
                   (Part000.resetTranscript sp)) as [-> _].
  - unfold Part000.onend. simpl. by rewrite andb_false_r.
Qed.

(** ** Result events without new finalized text *)

Lemma finalText_interim rs :
  forallb (λ res, negb (Result.isFinal res)) rs = true → finalText rs = [].
Proof.
  induction rs as [|res rs IH]; simpl; [done|].
  intros [Hres Hrs]%andb_prop. apply negb_true_iff in Hres.
  unfold finalText.
  rewrite filter_cons_False by (simpl; congruence). by apply IH.
Qed.

(** X13. A result event whose fresh results are all non-final (in
    particular one whose [resultIndex] is past the end of [results]) leaves
    the accumulated finalized text as it was, shows it followed by the
    event's interim text, and stops nothing and calls nothing, with or
    without a callback.  A result event after which the accumulated text is
    blank stops nothing and calls nothing either.  Both revisions. *)
Theorem interim_events_stop_nothing
    (r : RecId) (event : SpeechRecognitionEvent)
    (sh : Hook.State) (sp : Part000.State) :
  forallb (λ res, negb (Result.isFinal res)) (fresh event) = true
  ∨ (trim (Hook.finalTranscriptRef sh ++ finalText (fresh event)) = []
     ∧ trim (Part000.finalTranscriptRef sp ++ finalText (fresh event)) = [])
  →
  (Hook.calls (Hook.onresult r event sh) = Hook.calls sh
   ∧ Hook.timers (Hook.onresult r event sh) = Hook.timers sh
   ∧ Part000.calls (Part000.onresult r event sp) = Part000.calls sp)
  ∧ (forallb (λ res, negb (Result.isFinal res)) (fresh event) = true →
     Hook.finalTranscriptRef (Hook.onresult r event sh)
     = Hook.finalTranscriptRef sh
     ∧ Hook.transcript (Hook.onresult r event sh)
       = Hook.finalTranscriptRef sh ++ interimText (fresh event)
     ∧ Part000.finalTranscriptRef (Part000.onresult r event sp)
       = Part000.finalTranscriptRef sp
     ∧ Part000.transcript (Part000.onresult r event sp)
       = Part000.finalTranscriptRef sp ++ interimText (fresh event))
  ∧ (length (results event) ≤ resultIndex event →
     Hook.transcript (Hook.onresult r event sh) = Hook.finalTranscriptRef sh
     ∧ Part000.transcript (Part000.onresult r event sp)
       = Part000.finalTranscriptRef sp).
Proof.
  intros Hcase. split_and!.
  - rewrite HookFacts.onresult_unfold. cbv zeta.
    destruct Hcase as [Hint|[Hblank _]].
    + by rewrite (finalText_interim _ Hint).
    + rewrite Hblank. by rewrite andb_false_r.
  - rewrite HookFacts.onresult_unfold. cbv zeta.
    destruct Hcase as [Hint|[Hblank _]].
    + by rewrite (finalText_interim _ Hint).
    + rewrite Hblank. by rewrite andb_false_r.
  - rewrite Part000Facts.part_onresult_unfold. cbv zeta.
    destruct (Part000.onSpeechEndRef sp); [|done].
    destruct Hcase as [Hint|[_ Hblank]].
    + by rewrite (finalText_interim _ Hint).
    + rewrite Hblank. by rewrite andb_false_r.
  - intros Hint.
    destruct (hook_onresult_transcript r event sh) as [H1 H2].
    destruct (part_onresult_transcript r event sp) as [P1 P2].
    rewrite H2, P2, H1, P1, (finalText_interim _ Hint).
    by rewrite !app_nil_r.
  - intros Hlen.
    destruct (hook_onresult_transcript r event sh) as [H1 H2].
    destruct (part_onresult_transcript r event sp) as [P1 P2].
    rewrite H2, P2, H1, P1. unfold fresh. rewrite drop_ge by done.
    unfold finalText, interimText. simpl. by rewrite !app_nil_r.
Qed.

Lemma interim_events_stop_nothing_witness :
  ∃ s,
    Hook.run [Hook.Mount; Hook.StartListening (Some 7) false;
              Hook.Deliver 0 EvStart]
      (Hook.init true) = Some s
    ∧ forallb (λ res, negb (Result.isFinal res)) (fresh interimEvent) = true
    ∧ Hook.calls (Hook.onresult 0 interimEvent s) = Hook.calls s
    ∧ Hook.timers (Hook.onresult 0 interimEvent s) = Hook.timers s.
Proof.
  eexists. split; [by vm_compute|]. split; [done|].
  match goal with
  | |- Hook.calls (Hook.onresult _ _ ?s) = _ ∧ _ =>
      pose proof (interim_events_stop_nothing 0 interimEvent s mountedPart
                    (or_introl eq_refl)) as ((H1 & H2 & _) & _)
  end.
  split; [exact H1|exact H2].
Defined.

(** ** The end of a session *)

(** X14. In voice mode, or when no finalized text has accumulated, [onend]
    leaves the transcript as it is displayed.  In the voice-mode revision a
    [stopListening] before the end turns the session into a manual one: the
    end then replaces the transcript by the accumulated finalized text.  In
    the plain revision [stopListening] does not change the mode: with a
    stored callback the end leaves the transcript alone. *)
Theorem onend_keeps_transcript_in_voice_mode
    (sh : Hook.State) (sp : Part000.State) :
  Hook.isVoiceModeRef sh = true ∨ Hook.finalTranscriptRef sh = [] →
  is_Some (Part000.onSpeechEndRef sp) ∨ Part000.finalTranscriptRef sp = [] →
  (Hook.transcript (Hook.onend sh) = Hook.transcript sh
   ∧ ∀ s, Hook.finalTranscriptRef s ≠ [] →
       Hook.transcript (Hook.onend (Hook.stopListening s))
       = Hook.finalTranscriptRef s)
  ∧ (Part000.transcript (Part000.onend sp) = Part000.transcript sp
     ∧ ∀ s, is_Some (Part000.onSpeechEndRef s) →
         Part000.transcript (Part000.onend (Part000.stopListening s))
         = Part000.transcript s).
Proof.
  intros Hh Hp. split; split.
  - unfold Hook.onend. simpl. destruct Hh as [->| ->]; [done|].
    by rewrite andb_false_r.
  - intros s Hf.
    assert (Hstop : Hook.isVoiceModeRef (Hook.stopListening s) = false
        ∧ Hook.finalTranscriptRef (Hook.stopListening s)
          = Hook.finalTranscriptRef s).
    { unfold Hook.stopListening. by repeat case_match. }
    destruct Hstop as [Hv Hfin].
    destruct (hook_onend_manual (Hook.stopListening s)) as [-> _];
      [done|by rewrite Hfin|done].
  - unfold Part000.onend. simpl. destruct Hp as [Hcb| ->].
    + by rewrite bool_decide_eq_true_2.
    + by rewrite andb_false_r.
  - intros s Hcb.
    assert (Hstop : Part000.onSpeechEndRef (Part000.stopListening s)
          = Part000.onSpeechEndRef s
        ∧ Part000.transcript (Part000.stopListening s)
          = Part000.transcript s).
    { unfold Part000.stopListening. by repeat case_match. }
    destruct Hstop as [Hcb' Ht].
    unfold Part000.onend. simpl. rewrite Hcb'.
    by rewrite bool_decide_eq_true_2.
Qed.

Lemma onend_keeps_transcript_in_voice_mode_witness :
  ∃ sh sp,
    (Hook.run [Hook.Mount; Hook.StartListening (Some 7) false;
               Hook.Deliver 0 EvStart; Hook.Deliver 0 (EvResult firstEvent)]
       (Hook.init true) = Some sh
     ∧ Part000.run [Part000.Mount; Part000.StartListening (Some 7) false;
                    Part000.Deliver 0 EvStart;
                    Part000.Deliver 0 (EvResult firstEvent)]
         (Part000.init true) = Some sp)
    ∧ (Hook.isVoiceModeRef sh = true ∨ Hook.finalTranscriptRef sh = [])
    ∧ (is_Some (Part000.onSpeechEndRef sp)
       ∨ Part000.finalTranscriptRef sp = [])
    ∧ Hook.transcript sh = lit "merhaba dun"
    ∧ Hook.transcript (Hook.onend sh) = Hook.transcript sh
    ∧ Hook.transcript (Hook.onend (Hook.stopListening sh)) = lit "merhaba "
    ∧ Part000.transcript (Part000.onend sp) = Part000.transcript sp.
Proof.
  eexists. eexists. split; [split; by vm_compute|].
  split; [by left|]. split; [left; by eexists|]. split; [by vm_compute|].
  match goal with
  | |- Hook.transcript (Hook.onend ?sh) = _ ∧ _
       ∧ Part000.transcript (Part000.onend ?sp) = _ =>
      pose proof (onend_keeps_transcript_in_voice_mode sh sp
        (or_introl eq_refl) (or_introl (ex_intro _ 7 eq_refl)))
        as ((H1 & H2) & (H3 & _));
      pose proof (H2 sh ltac:(by vm_compute)) as H2'
  end.
  split; [exact H1|]. split; [exact H2'|exact H3].
Defined.

(** ** Whole sessions *)

Lemma hook_run_app l1 l2 s :
  Hook.run (l1 ++ l2) s = Hook.run l1 s ≫= Hook.run l2.
Proof.
  revert s. induction l1 as [|a l1 IH]; intros s; simpl; [done|].
  destruct (Hook.step a s) as [s1|]; simpl; [apply IH|done].
Qed.

Lemma part_run_app l1 l2 s :
  Part000.run (l1 ++ l2) s = Part000.run l1 s ≫= Part000.run l2.
Proof.
  revert s. induction l1 as [|a l1 IH]; intros s; simpl; [done|].
  destruct (Part000.step a s) as [s1|]; simpl; [apply IH|done].
Qed.

Lemma hook_deliver_at r o ev p s :
  Hook.heap s !! r = Some o → wired r o →
  nextPhase ev (Rec.phase o) = Some p →
  Hook.deliver r ev s = Some (Hook.handle r ev (Hook.setPhase r p s)).
Proof.
  intros Ho (H1 & H2 & H3 & H4) Hp. unfold Hook.deliver.
  rewrite Ho. cbn [mbind option_bind]. rewrite Hp. cbn [mbind option_bind].
  destruct ev; unfold slot; rewrite ?H1, ?H2, ?H3, ?H4; done.
Qed.

Lemma part_deliver_at r o ev p s :
  Part000.heap s !! r = Some o → wired r o →
  nextPhase ev (Rec.phase o) = Some p →
  Part000.deliver r ev s
  = Some (Part000.handle r ev (Part000.setPhase r p s)).
Proof.
  intros Ho (H1 & H2 & H3 & H4) Hp. unfold Part000.deliver.
  rewrite Ho. cbn [mbind option_bind]. rewrite Hp. cbn [mbind option_bind].
  destruct ev; unfold slot; rewrite ?H1, ?H2, ?H3, ?H4; done.
Qed.

(** A recognizer that is running with the hook's handlers. *)
Lemma running_after_setPhase (h : list Recognizer) r o :
  h !! r = Some o → wired r o →
  ∃ o', alter (withPhase Running) r h !! r = Some o'
        ∧ wired r o' ∧ Rec.phase o' = Running.
Proof.
  intros Ho Hw. exists (withPhase Running o). split_and!.
  - by rewrite list_lookup_alter_eq, Ho.
  - by apply wired_withPhase.
  - done.
Qed.

Lemma hook_results_run r evs s :
  (∃ o, Hook.heap s !! r = Some o ∧ wired r o ∧ Rec.phase o = Running) →
  Hook.onSpeechEndRef s = None → Hook.isVoiceModeRef s = false →
  ∃ s',
    Hook.run ((λ e, Hook.Deliver r (EvResult e)) <$> evs) s = Some s'
    ∧ (∃ o, Hook.heap s' !! r = Some o ∧ wired r o ∧ Rec.phase o = Running)
    ∧ Hook.onSpeechEndRef s' = None ∧ Hook.isVoiceModeRef s' = false
    ∧ Hook.finalTranscriptRef s'
      = Hook.finalTranscriptRef s ++ sessionFinalText evs
    ∧ Hook.timers s' = Hook.timers s ∧ Hook.calls s' = Hook.calls s.
Proof.
  revert s. induction evs as [|e evs IH]; intros s Hrun Hcb Hv.
  - exists s. simpl. split_and!; try done. by rewrite app_nil_r.
  - destruct Hrun as (o & Ho & Hw & Hp).
    set (s1 := Hook.handle r (EvResult e) (Hook.setPhase r Running s)).
    assert (Hd : Hook.deliver r (EvResult e) s = Some s1).
    { eapply hook_deliver_at; [done..|]. by rewrite Hp. }
    destruct (HookFacts.handle_frame r (EvResult e)
                (Hook.setPhase r Running s))
      as (_ & Hcb1 & Hv1 & _ & _ & _ & Hh1).
    destruct (hook_handle_manual r (EvResult e) (Hook.setPhase r Running s)
                Hcb Hv) as [Ht1 Hc1].
    destruct (hook_onresult_transcript r e (Hook.setPhase r Running s))
      as [Hf1 _].
    fold s1 in Hcb1, Hv1, Hh1, Ht1, Hc1.
    change (Hook.onresult r e (Hook.setPhase r Running s)) with s1 in Hf1.
    destruct (IH s1) as (s' & Hrun' & Hrun'' & Hcb' & Hv' & Hf' & Ht' & Hc').
    + rewrite Hh1. simpl. by eapply running_after_setPhase.
    + by rewrite Hcb1.
    + by rewrite Hv1.
    + exists s'. split_and!; try done.
      * cbn [fmap list_fmap Hook.run Hook.step]. rewrite Hd.
        cbn [mbind option_bind]. exact Hrun'.
      * rewrite Hf', Hf1. simpl. unfold sessionFinalText. simpl.
        by rewrite app_assoc.
      * by rewrite Ht', Ht1.
      * by rewrite Hc', Hc1.
Qed.

Lemma part_handle_manual r ev s :
  Part000.onSpeechEndRef s = None →
  Part000.calls (Part000.handle r ev s) = Part000.calls s.
Proof.
  intros Hcb. destruct ev; cbn [Part000.handle].
  - done.
  - rewrite Part000Facts.part_onresult_unfold. cbv zeta. by rewrite Hcb.
  - unfold Part000.onend. by case_match.
  - done.
Qed.

Lemma part_results_run r evs s :
  (∃ o, Part000.heap s !! r = Some o ∧ wired r o ∧ Rec.phase o = Running) →
  Part000.onSpeechEndRef s = None →
  ∃ s',
    Part000.run ((λ e, Part000.Deliver r (EvResult e)) <$> evs) s = Some s'
    ∧ (∃ o, Part000.heap s' !! r = Some o ∧ wired r o
            ∧ Rec.phase o = Running)
    ∧ Part000.onSpeechEndRef s' = None
    ∧ Part000.finalTranscriptRef s'
      = Part000.finalTranscriptRef s ++ sessionFinalText evs
    ∧ Part000.calls s' = Part000.calls s.
Proof.
  revert s. induction evs as [|e evs IH]; intros s Hrun Hcb.
  - exists s. simpl. split_and!; try done. by rewrite app_nil_r.
  - destruct Hrun as (o & Ho & Hw & Hp).
    set (s1 := Part000.handle r (EvResult e) (Part000.setPhase r Running s)).
    assert (Hd : Part000.deliver r (EvResult e) s = Some s1).
    { eapply part_deliver_at; [done..|]. by rewrite Hp. }
    destruct (Part000Facts.part_handle_frame r (EvResult e)
                (Part000.setPhase r Running s))
      as (_ & Hcb1 & _ & _ & _ & Hh1).
    pose proof (part_handle_manual r (EvResult e)
                  (Part000.setPhase r Running s) Hcb) as Hc1.
    destruct (part_onresult_transcript r e (Part000.setPhase r Running s))
      as [Hf1 _].
    fold s1 in Hcb1, Hh1, Hc1.
    change (Part000.onresult r e (Part000.setPhase r Running s)) with s1
      in Hf1.
    destruct (IH s1) as (s' & Hrun' & Hrun'' & Hcb' & Hf' & Hc').
    + rewrite Hh1. simpl. by eapply running_after_setPhase.
    + by rewrite Hcb1.
    + exists s'. split_and!; try done.
      * cbn [fmap list_fmap Part000.run Part000.step]. rewrite Hd.
        cbn [mbind option_bind]. exact Hrun'.
      * rewrite Hf', Hf1. simpl. unfold sessionFinalText. simpl.
        by rewrite app_assoc.
      * by rewrite Hc', Hc1.
Qed.

(** X15. A whole manual session from any state that passes the guards of
    [startListening]: the UI starts the session, the platform delivers the
    start event, any list of result events and the end event.  Every step
    is accepted, and afterwards the hook is not listening, the accumulated
    finalized text is the finalized text of all events in order, the
    transcript shows exactly that text when it is not empty, and the hook
    called nothing but the [start()] of the new recognizer (after aborting
    a current one, in the voice-mode revision).  Both revisions. *)
Theorem manual_session_yields_final_text
    (evs : list SpeechRecognitionEvent)
    (sh : Hook.State) (sp : Part000.State) :
  Hook.isSupported sh = true →
  Hook.speechRecognitionCtor sh = true →
  Part000.isSupported sp = true →
  Part000.isListening sp = false →
  Part000.speechRecognitionCtor sp = true →
  (∃ s', Hook.run (manualSession (length (Hook.heap sh)) evs) sh = Some s'
         ∧ Hook.isListening s' = false
         ∧ Hook.recognitionRef s' = None
         ∧ Hook.finalTranscriptRef s' = sessionFinalText evs
         ∧ (sessionFinalText evs ≠ [] →
            Hook.transcript s' = sessionFinalText evs)
         ∧ Hook.timers s' = Hook.timers sh
         ∧ Hook.calls s'
           = (Hook.calls sh
              ++ match Hook.recognitionRef sh with
                 | Some current => [CallAbort current]
                 | None => []
                 end)
             ++ [CallStart (length (Hook.heap sh))])
  ∧ (∃ s', Part000.run (manualSessionPart (length (Part000.heap sp)) evs) sp
           = Some s'
           ∧ Part000.isListening s' = false
           ∧ Part000.finalTranscriptRef s' = sessionFinalText evs
           ∧ (sessionFinalText evs ≠ [] →
              Part000.transcript s' = sessionFinalText evs)
           ∧ Part000.calls s'
             = Part000.calls sp ++ [CallStart (length (Part000.heap sp))]).
Proof.
  intros Hsup Hctor Psup Plis Pctor. split.
  - set (r := length (Hook.heap sh)).
    set (s1 := Hook.started None false sh).
    set (s2 := Hook.onstart (Hook.setPhase r Running s1)).
    assert (H1 : Hook.step (Hook.StartListening None false) sh = Some s1).
    { simpl. by rewrite HookFacts.startListening_unfold, Hsup, Hctor. }
    assert (H2 : Hook.step (Hook.Deliver r EvStart) s1 = Some s2).
    { apply (hook_deliver_at r
               (withPhase Starting (configure r newRecognizer))).
      - simpl. rewrite lookup_app_r by done. by rewrite Nat.sub_diag.
      - apply wired_withPhase, wired_configure.
      - done. }
    destruct (hook_results_run r evs s2)
      as (s3 & H3 & (o & Ho & Hw & Hp) & Hcb & Hv & Hf & Ht & Hc);
      [|done|done|].
    { simpl.
      apply (running_after_setPhase _ r
               (withPhase Starting (configure r newRecognizer))).
      - rewrite lookup_app_r by done. by rewrite Nat.sub_diag.
      - apply wired_withPhase, wired_configure. }
    assert (H4 : Hook.step (Hook.Deliver r EvEnd) s3
                 = Some (Hook.onend (Hook.setPhase r Ended s3))).
    { apply (hook_deliver_at r o); [done..|]. by rewrite Hp. }
    exists (Hook.onend (Hook.setPhase r Ended s3)). split_and!.
    + unfold manualSession. fold r.
      rewrite hook_run_app.
      rewrite (hook_run_steps2 _ _ sh s1 s2 H1 H2). cbn [mbind option_bind].
      rewrite hook_run_app, H3. cbn [mbind option_bind Hook.run].
      by rewrite H4.
    + apply HookFacts.onend_isListening.
    + unfold Hook.onend. by case_match.
    + unfold Hook.onend. simpl. case_match; simpl; by rewrite Hf.
    + intros Hne.
      destruct (hook_onend_manual (Hook.setPhase r Ended s3)) as [-> _].
      * done.
      * simpl. by rewrite Hf.
      * simpl. by rewrite Hf.
    + unfold Hook.onend. simpl. case_match; simpl; by rewrite Ht.
    + unfold Hook.onend. simpl. case_match; simpl; by rewrite Hc.
  - set (r := length (Part000.heap sp)).
    set (s1 := Part000.started None false sp).
    set (s2 := Part000.onstart (Part000.setPhase r Running s1)).
    assert (H1 : Part000.step (Part000.StartListening None false) sp
                 = Some s1).
    { simpl. by rewrite Part000Facts.part_startListening_unfold,
        Psup, Plis, Pctor. }
    assert (H2 : Part000.step (Part000.Deliver r EvStart) s1 = Some s2).
    { apply (part_deliver_at r
               (withPhase Starting (configure r newRecognizer))).
      - simpl. rewrite lookup_app_r by done. by rewrite Nat.sub_diag.
      - apply wired_withPhase, wired_configure.
      - done. }
    destruct (part_results_run r evs s2)
      as (s3 & H3 & (o & Ho & Hw & Hp) & Hcb & Hf & Hc); [|done|].
    { simpl.
      apply (running_after_setPhase _ r
               (withPhase Starting (configure r newRecognizer))).
      - rewrite lookup_app_r by done. by rewrite Nat.sub_diag.
      - apply wired_withPhase, wired_configure. }
    assert (H4 : Part000.step (Part000.Deliver r EvEnd) s3
                 = Some (Part000.onend (Part000.setPhase r Ended s3))).
    { apply (part_deliver_at r o); [done..|]. by rewrite Hp. }
    exists (Part000.onend (Part000.setPhase r Ended s3)). split_and!.
    + unfold manualSessionPart. fold r.
      rewrite part_run_app. cbn [Part000.run]. rewrite H1.
      cbn [mbind option_bind]. rewrite H2. cbn [mbind option_bind].
      rewrite part_run_app, H3. cbn [mbind option_bind Part000.run].
      by rewrite H4.
    + unfold Part000.onend. by case_match.
    + unfold Part000.onend. simpl. case_match; simpl; by rewrite Hf.
    + intros Hne.
      destruct (part_onend_manual (Part000.setPhase r Ended s3)) as [-> _].
      * done.
      * simpl. by rewrite Hf.
      * simpl. by rewrite Hf.
    + unfold Part000.onend. simpl. case_match; simpl; by rewrite Hc.
Qed.

Lemma manual_session_yields_final_text_witness :
  (Hook.isSupported mountedHook = true
   ∧ Hook.speechRecognitionCtor mountedHook = true
   ∧ Part000.isSupported mountedPart = true
   ∧ Part000.isListening mountedPart = false
   ∧ Part000.speechRecognitionCtor mountedPart = true)
  ∧ ∃ s', Hook.run (manualSession 0 [firstEvent; secondEvent]) mountedHook
          = Some s'
          ∧ Hook.transcript s' = lit "merhaba dunya ".
Proof.
  split; [by vm_compute|].
  destruct (manual_session_yields_final_text [firstEvent; secondEvent]
              mountedHook mountedPart eq_refl eq_refl eq_refl eq_refl eq_refl)
    as ((s' & Hrun & _ & _ & _ & Ht & _) & _).
  exists s'. split; [exact Hrun|].
  exact (Ht ltac:(by vm_compute)).
Defined.

Lemma hook_run_steps4 a b c d s s1 s2 s3 s4 :
  Hook.step a s = Some s1 → Hook.step b s1 = Some s2 →
  Hook.step c s2 = Some s3 → Hook.step d s3 = Some s4 →
  Hook.run [a; b; c; d] s = Some s4.
Proof.
  intros H1 H2 H3 H4. simpl. rewrite H1. simpl. rewrite H2. simpl.
  rewrite H3. simpl. by rewrite H4.
Qed.

Lemma part_run_steps3 a b c s s1 s2 s3 :
  Part000.step a s = Some s1 → Part000.step b s1 = Some s2 →
  Part000.step c s2 = Some s3 →
  Part000.run [a; b; c] s = Some s3.
Proof.
  intros H1 H2 H3. simpl. rewrite H1. simpl. rewrite H2. simpl.
  by rewrite H3.
Qed.

Lemma trim_nonempty (t : jsstring) : trim t ≠ [] → t ≠ [].
Proof. by intros H ->. Qed.

(** X16. A voice-mode utterance from any state that passes the guards of
    [startListening]: the UI starts a session with a callback, the start
    event arrives, and a result event brings finalized text that is not
    blank.  In the voice-mode revision the hook calls [stop()] on the new
    recognizer and, when the 100 ms timer expires, calls the callback with
    the trimmed finalized text of the event; the plain revision makes the
    same two calls within the result handler.  The flag still says
    listening: only the end event clears it. *)
Theorem voice_utterance_reaches_callback
    (onSpeechEnd : Callback) (event : SpeechRecognitionEvent)
    (sh : Hook.State) (sp : Part000.State) :
  Hook.isSupported sh = true →
  Hook.speechRecognitionCtor sh = true →
  Part000.isSupported sp = true →
  Part000.isListening sp = false →
  Part000.speechRecognitionCtor sp = true →
  trim (finalText (fresh event)) ≠ [] →
  (let r := length (Hook.heap sh) in
   ∃ s', Hook.run [Hook.StartListening (Some onSpeechEnd) false;
                   Hook.Deliver r EvStart; Hook.Deliver r (EvResult event);
                   Hook.Fire (length (Hook.timers sh)) false] sh
         = Some s'
         ∧ Hook.calls s'
           = (Hook.calls sh
              ++ match Hook.recognitionRef sh with
                 | Some current => [CallAbort current]
                 | None => []
                 end)
             ++ [CallStart r; CallStop r;
                 CallOnSpeechEnd onSpeechEnd (trim (finalText (fresh event)))]
         ∧ Hook.transcript s'
           = finalText (fresh event) ++ interimText (fresh event)
         ∧ Hook.timers s' = Hook.timers sh
         ∧ Hook.isListening s' = true)
  ∧ (let r := length (Part000.heap sp) in
     ∃ s', Part000.run [Part000.StartListening (Some onSpeechEnd) false;
                        Part000.Deliver r EvStart;
                        Part000.Deliver r (EvResult event)] sp
           = Some s'
           ∧ Part000.calls s'
             = Part000.calls sp
               ++ [CallStart r; CallStop r;
                   CallOnSpeechEnd onSpeechEnd
                     (trim (finalText (fresh event)))]
           ∧ Part000.transcript s'
             = finalText (fresh event) ++ interimText (fresh event)
           ∧ Part000.isListening s' = true).
Proof.
  intros Hsup Hctor Psup Plis Pctor Htext.
  pose proof (trim_nonempty _ Htext) as Hfin.
  apply truthy_true in Htext, Hfin.
  split; cbv zeta.
  - set (r := length (Hook.heap sh)).
    set (s1 := Hook.started (Some onSpeechEnd) false sh).
    set (s2 := Hook.onstart (Hook.setPhase r Running s1)).
    set (s3 := Hook.call (CallStop r)
                 (Hook.setTranscript
                    (finalText (fresh event) ++ interimText (fresh event))
                    (Hook.setFinalTranscriptRef (finalText (fresh event))
                       (Hook.setPhase r Running s2)))).
    set (text := trim (finalText (fresh event))).
    assert (H1 : Hook.step (Hook.StartListening (Some onSpeechEnd) false) sh
                 = Some s1).
    { simpl. by rewrite HookFacts.startListening_unfold, Hsup, Hctor. }
    assert (H2 : Hook.step (Hook.Deliver r EvStart) s1 = Some s2).
    { apply (hook_deliver_at r
               (withPhase Starting (configure r newRecognizer))).
      - simpl. rewrite lookup_app_r by done. by rewrite Nat.sub_diag.
      - apply wired_withPhase, wired_configure.
      - done. }
    assert (H3 : Hook.step (Hook.Deliver r (EvResult event)) s2
                 = Some (Hook.setTimeout (Hook.SpeechEndTimer text) 100 s3)).
    { destruct (running_after_setPhase (Hook.heap s1) r
                  (withPhase Starting (configure r newRecognizer)))
        as (o & Ho & Hw & Hp).
      - simpl. rewrite lookup_app_r by done. by rewrite Nat.sub_diag.
      - apply wired_withPhase, wired_configure.
      - cbn [Hook.step].
        rewrite (hook_deliver_at r o (EvResult event) Running s2);
          [|exact Ho|exact Hw|by rewrite Hp].
        cbn [Hook.handle]. rewrite HookFacts.onresult_unfold. cbv zeta.
        change (Hook.finalTranscriptRef (Hook.setPhase r Running s2))
          with (@nil N).
        change (Hook.onSpeechEndRef (Hook.setPhase r Running s2))
          with (Some onSpeechEnd).
        cbn [app]. rewrite Hfin, Htext.
        by rewrite bool_decide_eq_true_2. }
    assert (H4 : Hook.step (Hook.Fire (length (Hook.timers sh)) false)
                   (Hook.setTimeout (Hook.SpeechEndTimer text) 100 s3)
                 = Some (Hook.call (CallOnSpeechEnd onSpeechEnd text) s3)).
    { change (length (Hook.timers sh)) with (length (Hook.timers s3)).
      by rewrite hook_fire_scheduled. }
    exists (Hook.call (CallOnSpeechEnd onSpeechEnd text) s3).
    split; [by eapply hook_run_steps4|].
    split_and!; try done.
    simpl. by rewrite <-!app_assoc.
  - set (r := length (Part000.heap sp)).
    set (s1 := Part000.started (Some onSpeechEnd) false sp).
    set (s2 := Part000.onstart (Part000.setPhase r Running s1)).
    set (text := trim (finalText (fresh event))).
    set (s3 := Part000.call (CallOnSpeechEnd onSpeechEnd text)
                 (Part000.call (CallStop r)
                    (Part000.setTranscript
                       (finalText (fresh event) ++ interimText (fresh event))
                       (Part000.setFinalTranscriptRef
                          (finalText (fresh event))
                          (Part000.setPhase r Running s2))))).
    assert (H1 : Part000.step
                   (Part000.StartListening (Some onSpeechEnd) false) sp
                 = Some s1).
    { simpl. by rewrite Part000Facts.part_startListening_unfold,
        Psup, Plis, Pctor. }
    assert (H2 : Part000.step (Part000.Deliver r EvStart) s1 = Some s2).
    { apply (part_deliver_at r
               (withPhase Starting (configure r newRecognizer))).
      - simpl. rewrite lookup_app_r by done. by rewrite Nat.sub_diag.
      - apply wired_withPhase, wired_configure.
      - done. }
    assert (H3 : Part000.step (Part000.Deliver r (EvResult event)) s2
                 = Some s3).
    { destruct (running_after_setPhase (Part000.heap s1) r
                  (withPhase Starting (configure r newRecognizer)))
        as (o & Ho & Hw & Hp).
      - simpl. rewrite lookup_app_r by done. by rewrite Nat.sub_diag.
      - apply wired_withPhase, wired_configure.
      - cbn [Part000.step].
        rewrite (part_deliver_at r o (EvResult event) Running s2);
          [|exact Ho|exact Hw|by rewrite Hp].
        cbn [Part000.handle]. rewrite Part000Facts.part_onresult_unfold.
        cbv zeta.
        change (Part000.finalTranscriptRef (Part000.setPhase r Running s2))
          with (@nil N).
        change (Part000.onSpeechEndRef (Part000.setPhase r Running s2))
          with (Some onSpeechEnd).
        cbn [app]. by rewrite Hfin, Htext. }
    exists s3. split; [by eapply part_run_steps3|].
    split_and!; try done.
    simpl. by rewrite <-!app_assoc.
Qed.

Lemma voice_utterance_reaches_callback_witness :
  (Hook.isSupported mountedHook = true
   ∧ Hook.speechRecognitionCtor mountedHook = true
   ∧ Part000.isSupported mountedPart = true
   ∧ Part000.isListening mountedPart = false
   ∧ Part000.speechRecognitionCtor mountedPart = true
   ∧ trim (finalText (fresh firstEvent)) ≠ [])
  ∧ ∃ s', Hook.run [Hook.StartListening (Some 7) false;
                    Hook.Deliver 0 EvStart;
                    Hook.Deliver 0 (EvResult firstEvent);
                    Hook.Fire 0 false] mountedHook
          = Some s'
          ∧ Hook.calls s'
            = [CallStart 0; CallStop 0; CallOnSpeechEnd 7 (lit "merhaba")].
Proof.
  split; [by vm_compute|].
  destruct (voice_utterance_reaches_callback 7 firstEvent
              mountedHook mountedPart eq_refl eq_refl eq_refl eq_refl eq_refl
              ltac:(by vm_compute))
    as ((s' & Hrun & Hcalls & _) & _).
  exists s'. split; [exact Hrun|exact Hcalls].
Defined.

(** ** Recovery after an error *)

Lemma hook_supported_when_used s :
  Hook.reachable s → Hook.heap s ≠ [] →
  Hook.isSupported s = true ∧ Hook.speechRecognitionCtor s = true.
Proof.
  revert s.
  apply (HookFacts.reachable_inv (λ s, Hook.heap s ≠ [] →
    Hook.isSupported s = true ∧ Hook.speechRecognitionCtor s = true)).
  - done.
  - intros s IH _. unfold Hook.effect.
    case_match eqn:Hc; simpl in *; [done|]. intros Hne.
    destruct (IH Hne) as [_ ?]. congruence.
  - done.
  - intros s IH. unfold Hook.stopListening. by repeat case_match.
  - done.
  - intros cb s IH. unfold Hook.restartListening. by case_match.
  - intros r ev o p s _ IH Ho _ _.
    destruct (HookFacts.handle_frame r ev (Hook.setPhase r p s))
      as (-> & _ & _ & _ & _ & -> & _).
    simpl. apply IH. intros Hnil. by rewrite Hnil, lookup_nil in Ho.
  - done.
  - done.
Qed.

(** X17. Recovery from an error in voice mode, from any state the hook
    reaches with restart enabled: when a live recognizer reports an error
    other than [aborted] and the retry timer then expires, the hook has
    started one new recognizer with the stored callback, without calling
    [abort()] (the error handler had cleared the current recognizer), and
    has dropped the finalized text accumulated before the error.  The
    listening flag stays false until the new start event. *)
Theorem error_retry_starts_fresh_session
    (ctor : bool) (acts : list Hook.Action) (s : Hook.State)
    (r : RecId) (o : Recognizer) (error : jsstring) (throws : bool) :
  Hook.run acts (Hook.init ctor) = Some s →
  Hook.heap s !! r = Some o →
  Rec.phase o ≠ Idle → Rec.phase o ≠ Ended →
  Hook.shouldRestartRef s = true →
  error ≠ lit "aborted" →
  ∃ cb s',
    Hook.onSpeechEndRef s = Some cb
    ∧ Hook.run [Hook.Deliver r (EvError error);
                Hook.Fire (length (Hook.timers s)) throws] s = Some s'
    ∧ Hook.calls s' = Hook.calls s ++ [CallStart (length (Hook.heap s))]
    ∧ length (Hook.heap s') = S (length (Hook.heap s))
    ∧ Hook.onSpeechEndRef s' = Some cb
    ∧ Hook.shouldRestartRef s' = true
    ∧ Hook.finalTranscriptRef s' = []
    ∧ Hook.isListening s' = false
    ∧ Hook.timers s' = Hook.timers s
    ∧ Hook.recognitionRef s'
      = if throws then None else Some (length (Hook.heap s)).
Proof.
  intros Hrun Ho Hidle Hended Hre Herr.
  apply hook_reachable_of_run in Hrun.
  pose proof (HookFacts.reachable_wiredHeap s Hrun r o Ho) as Hw.
  pose proof (hook_voice_flags_eq s Hrun) as Hv. rewrite Hre in Hv.
  destruct (HookFacts.reachable_voice s Hrun) as [_ Hsome].
  destruct (Hsome Hre) as [cb Hcb].
  destruct (hook_supported_when_used s Hrun) as [Hsup Hctor].
  { intros Hnil. by rewrite Hnil, lookup_nil in Ho. }
  set (s1 := Hook.setRecognitionRef None
               (Hook.setIsListening false (Hook.setPhase r Failed s))).
  assert (H1 : Hook.step (Hook.Deliver r (EvError error)) s
               = Some (Hook.setTimeout Hook.RetryTimer 1000 s1)).
  { cbn [Hook.step].
    rewrite (hook_deliver_at r o (EvError error) Failed s Ho Hw);
      [|by destruct (Rec.phase o)].
    cbn [Hook.handle]. rewrite HookFacts.onerror_unfold. cbv zeta.
    change (Hook.isVoiceModeRef (Hook.setPhase r Failed s))
      with (Hook.isVoiceModeRef s).
    change (Hook.shouldRestartRef (Hook.setPhase r Failed s))
      with (Hook.shouldRestartRef s).
    rewrite Hv, Hre. by rewrite bool_decide_eq_false_2. }
  assert (H2 : Hook.step (Hook.Fire (length (Hook.timers s)) throws)
                 (Hook.setTimeout Hook.RetryTimer 1000 s1)
               = Some (Hook.started (Some cb) throws s1)).
  { change (length (Hook.timers s)) with (length (Hook.timers s1)).
    rewrite hook_fire_scheduled. cbn [Hook.fire].
    change (Hook.shouldRestartRef s1) with (Hook.shouldRestartRef s).
    change (Hook.onSpeechEndRef s1) with (Hook.onSpeechEndRef s).
    rewrite Hre, Hcb. rewrite bool_decide_eq_true_2 by done.
    cbn [andb]. rewrite HookFacts.startListening_unfold.
    change (Hook.isSupported s1) with (Hook.isSupported s).
    change (Hook.speechRecognitionCtor s1)
      with (Hook.speechRecognitionCtor s).
    by rewrite Hsup, Hctor. }
  exists cb, (Hook.started (Some cb) throws s1).
  split; [done|]. split; [by eapply hook_run_steps2|].
  subst s1. simpl. rewrite ?length_app, !length_alter, app_nil_r. simpl.
  split_and!; try done.
  - lia.
  - by destruct throws.
Qed.

Lemma error_retry_starts_fresh_session_witness :
  ∃ s o,
    (Hook.run [Hook.Mount; Hook.StartListening (Some 7) false;
               Hook.Deliver 0 EvStart; Hook.Deliver 0 (EvResult interimEvent)]
       (Hook.init true) = Some s
     ∧ Hook.heap s !! 0 = Some o
     ∧ Rec.phase o ≠ Idle ∧ Rec.phase o ≠ Ended
     ∧ Hook.shouldRestartRef s = true
     ∧ lit "network" ≠ lit "aborted")
    ∧ ∃ s', Hook.run [Hook.Deliver 0 (EvError (lit "network"));
                      Hook.Fire (length (Hook.timers s)) false] s = Some s'
            ∧ Hook.calls s' = Hook.calls s ++ [CallStart 1]
            ∧ Hook.recognitionRef s' = Some 1.
Proof.
  eexists. eexists. split; [split_and!; by vm_compute|].
  match goal with
  | |- ∃ s', Hook.run _ ?s = _ ∧ _ =>
      destruct (error_retry_starts_fresh_session true
        [Hook.Mount; Hook.StartListening (Some 7) false;
         Hook.Deliver 0 EvStart; Hook.Deliver 0 (EvResult interimEvent)]
        s 0 _ (lit "network") false
        ltac:(by vm_compute) ltac:(by vm_compute) ltac:(by vm_compute)
        ltac:(by vm_compute) ltac:(by vm_compute) ltac:(by vm_compute))
        as (cb & s' & _ & Hrun & Hcalls & _ & _ & _ & _ & _ & _ & Href)
  end.
  exists s'. split; [exact Hrun|]. split; [exact Hcalls|exact Href].
Defined.

(** ** Starting while a session is on *)

Lemma part_closure_startListening_unfold sup lis cb throws s :
  Part000Closure.startListening sup lis cb throws s
  = if sup && negb lis && Part000.speechRecognitionCtor s
    then Part000.started cb throws s else s.
Proof.
  destruct s as [l t sup0 cur cb0 ft m ctor h cs].
  destruct sup, lis, ctor, throws;
    cbv beta iota zeta delta
      [Part000Closure.startListening Part000.started Part000.start
       Part000.call Part000.setPhase Part000.setIsListening
       Part000.setTranscript Part000.setIsSupported
       Part000.setRecognitionRef Part000.setOnSpeechEndRef
       Part000.setFinalTranscriptRef Part000.setMounted Part000.setHeap
       Part000.setCalls Part000.isListening Part000.transcript
       Part000.isSupported Part000.recognitionRef Part000.onSpeechEndRef
       Part000.finalTranscriptRef Part000.mounted
       Part000.speechRecognitionCtor Part000.heap Part000.calls
       negb andb orb];
    try reflexivity;
    rewrite ?length_app, ?alter_snoc; simpl;
    rewrite ?alter_snoc; reflexivity.
Qed.

(** The functions of the two modules are the closures of the latest
    render. *)
Lemma latest_render_closures (sh : Hook.State) (sp : Part000.State) :
  (∀ cb throws,
     Hook.startListening cb throws sh
     = HookClosure.startListening (Hook.isSupported sh) cb throws sh)
  ∧ Hook.stopListening sh
    = HookClosure.stopListening (Hook.isListening sh) sh
  ∧ (∀ cb throws,
       Part000.startListening cb throws sp
       = Part000Closure.startListening (Part000.isSupported sp)
           (Part000.isListening sp) cb throws sp)
  ∧ Part000.stopListening sp
    = Part000Closure.stopListening (Part000.isListening sp) sp.
Proof. done. Qed.

(** X18. What [startListening] does to a session that is on.  In the
    voice-mode revision a [startListening] that finds a current recognizer
    calls [abort()] on it and then [start()] on its successor, and the new
    recognizer becomes the current one.  In the plain revision the call is
    ignored when the closure was created by a render that saw the listening
    flag true; a closure created by a render that saw it false (and
    supported) is not ignored, whatever the flag is by now: it creates and
    starts one more recognizer, without aborting any. *)
Theorem startListening_during_session
    (ctor : bool) (acts : list Hook.Action) (sh : Hook.State)
    (current : RecId) (sp : Part000.State) :
  Hook.run acts (Hook.init ctor) = Some sh →
  Hook.recognitionRef sh = Some current →
  Part000.speechRecognitionCtor sp = true →
  (∀ cb,
     Hook.calls (Hook.startListening cb false sh)
     = Hook.calls sh ++ [CallAbort current; CallStart (S current)]
     ∧ Hook.recognitionRef (Hook.startListening cb false sh)
       = Some (S current)
     ∧ length (Hook.heap (Hook.startListening cb false sh))
       = S (length (Hook.heap sh)))
  ∧ (∀ isSupported cb throws,
       Part000Closure.startListening isSupported true cb throws sp = sp)
  ∧ (∀ cb throws,
       let s' := Part000Closure.startListening true false cb throws sp in
       length (Part000.heap s') = S (length (Part000.heap sp))
       ∧ Part000.calls s'
         = Part000.calls sp ++ [CallStart (length (Part000.heap sp))]
       ∧ Part000.recognitionRef s' = Some (length (Part000.heap sp))
       ∧ Part000.isListening s'
         = if throws then false else Part000.isListening sp).
Proof.
  intros Hrun Hcur Pctor. apply hook_reachable_of_run in Hrun.
  destruct (hook_ref_newest sh Hrun) as (Hnew & _ & _).
  pose proof (Hnew current Hcur) as Hlen.
  destruct (hook_supported_when_used sh Hrun) as [Hsup Hctor].
  { intros Hnil. rewrite Hnil in Hlen. done. }
  split_and!.
  - intros cb. rewrite HookFacts.startListening_unfold, Hsup, Hctor. simpl.
    rewrite Hcur, <-Hlen, length_app. simpl. split_and!.
    + by rewrite <-app_assoc.
    + done.
    + lia.
  - intros sup cb throws. rewrite part_closure_startListening_unfold.
    by rewrite andb_false_r.
  - intros cb throws. cbv zeta.
    rewrite part_closure_startListening_unfold, Pctor. simpl.
    rewrite length_app. simpl. split_and!; [lia|done..].
Qed.

Lemma startListening_during_session_witness :
  ∃ sh sp,
    (Hook.run [Hook.Mount; Hook.StartListening None false;
               Hook.Deliver 0 EvStart]
       (Hook.init true) = Some sh
     ∧ Hook.recognitionRef sh = Some 0
     ∧ Part000.run [Part000.Mount; Part000.StartListening None false;
                    Part000.Deliver 0 EvStart]
         (Part000.init true) = Some sp
     ∧ Part000.speechRecognitionCtor sp = true)
    ∧ Part000.isListening sp = true
    ∧ Hook.calls (Hook.startListening (Some 7) false sh)
      = [CallStart 0; CallAbort 0; CallStart 1]
    ∧ Part000Closure.startListening true true (Some 7) false sp = sp
    ∧ Part000.calls (Part000Closure.startListening true false (Some 7) false sp)
      = [CallStart 0; CallStart 1].
Proof.
  eexists. eexists. split; [split_and!; by vm_compute|].
  split; [by vm_compute|].
  match goal with
  | |- Hook.calls (Hook.startListening _ _ ?sh) = _
       ∧ Part000Closure.startListening _ _ _ _ ?sp = _ ∧ _ =>
      pose proof (startListening_during_session true
        [Hook.Mount; Hook.StartListening None false; Hook.Deliver 0 EvStart]
        sh 0 sp ltac:(by vm_compute) eq_refl eq_refl) as (H1 & H2 & H3)
  end.
  split; [exact (proj1 (H1 (Some 7)))|].
  split; [exact (H2 true (Some 7) false)|].
  exact (proj1 (proj2 (H3 (Some 7) false))).
Defined.
